(** * The Markdown linter of shebangMarkdownIDE

    A shallow embedding of [MarkdownIDE._lint_markdown]
    (src/shebangMarkdownIDE/app.py) and the properties of its report.

    Python values are modelled as follows:
    - a [str] is the list of its Unicode code points ([N]);
    - an [int] is a [Z];
    - a [list] is a [list], indexed by [getitem], which raises [IndexError]
      out of range as Python does and counts negative indices from the end;
    - the dict [self.lint_issues] is a [gmap] from editor ids to reports;
    - a raised exception is the [Raise] case of [result]. *)

From Stdlib Require Import String Ascii.
From stdpp Require Import gmap list sorting pretty.

Local Open Scope Z_scope.

(** ** Strings *)

(** A character is its code point. *)
Abbreviation char := N.
Definition str := list char.

(** A string literal of the source, as its code points. *)
Definition lit (s : string) : str := N_of_ascii <$> list_ascii_of_string s.

Definition len {A} (l : list A) : Z := Z.of_nat (length l).

Definition char_eqb (a b : char) : bool := N.eqb a b.

Fixpoint str_eqb (s t : str) : bool :=
  match s, t with
  | [], [] => true
  | a :: s', b :: t' => char_eqb a b && str_eqb s' t'
  | _, _ => false
  end.

(** Truth value of a [str]: a string is true when it is not empty. *)
Definition truthy (s : str) : bool :=
  match s with [] => false | _ => true end.

(** [s.startswith(prefix)] *)
Fixpoint startswith (s pre : str) : bool :=
  match pre, s with
  | [], _ => true
  | p :: pre', c :: s' => char_eqb c p && startswith s' pre'
  | _ :: _, [] => false
  end.

(** [sub in s], substring containment. *)
Fixpoint contains (sub s : str) : bool :=
  startswith s sub || match s with [] => false | _ :: s' => contains sub s' end.

(** [str.isspace] on one code point: the white space of CPython's
    [_PyUnicode_IsWhitespace]. *)
Definition isspace (c : char) : bool :=
  ((9 <=? c) && (c <=? 13) || (28 <=? c) && (c <=? 32) || (c =? 133) ||
   (c =? 160) || (c =? 5760) || (8192 <=? c) && (c <=? 8202) ||
   (c =? 8232) || (c =? 8233) || (c =? 8239) || (c =? 8287) ||
   (c =? 12288))%N.

Fixpoint dropwhile {A} (p : A -> bool) (l : list A) : list A :=
  match l with
  | [] => []
  | x :: l' => if p x then dropwhile p l' else l
  end.

Fixpoint takewhile {A} (p : A -> bool) (l : list A) : list A :=
  match l with
  | [] => []
  | x :: l' => if p x then x :: takewhile p l' else []
  end.

(** [s.lstrip(chars)]: drop the leading characters that occur in [chars]. *)
Definition lstrip_chars (chars s : str) : str :=
  dropwhile (fun c => existsb (char_eqb c) chars) s.

(** [s.strip()]: drop leading and trailing white space. *)
Definition strip (s : str) : str :=
  rev (dropwhile isspace (rev (dropwhile isspace s))).

(** [s.split(sep)] for a separator of one character. *)
Fixpoint split (sep : char) (s : str) : list str :=
  match s with
  | [] => [[]]
  | c :: s' =>
      if char_eqb c sep then [] :: split sep s'
      else match split sep s' with
           | [] => [[c]]
           | l :: ls => (c :: l) :: ls
           end
  end.

(** [str(i)] as interpolated in an f-string. *)
Definition str_of_int (i : Z) : str := lit (pretty i).

Definition NL : char := 10%N.
Definition HASH : str := lit "#".
Definition PIPE : str := lit "|".
Definition FENCE : str := lit "```".

(** ** Exceptions *)

Inductive exn := IndexError.

Inductive result (A : Type) :=
| Ok (a : A)
| Raise (e : exn).
Arguments Ok {A} a.
Arguments Raise {A} e.

Definition bind {A B} (r : result A) (k : A -> result B) : result B :=
  match r with
  | Ok a => k a
  | Raise e => Raise e
  end.

Notation "x <- r ;; k" := (bind r (fun x => k))
  (at level 100, r at next level, right associativity).

(** [l[i]] *)
Definition getitem {A} (l : list A) (i : Z) : result A :=
  let j := if i <? 0 then i + len l else i in
  if (0 <=? j) && (j <? len l)
  then match l !! Z.to_nat j with
       | Some x => Ok x
       | None => Raise IndexError
       end
  else Raise IndexError.

(** [for x in l: body], threading the variables the body assigns. *)
Fixpoint for_each {A S} (body : A -> S -> result S) (l : list A) (s : S)
  : result S :=
  match l with
  | [] => Ok s
  | x :: l' => s' <- body x s ;; for_each body l' s'
  end.

(** [enumerate(l, start)] *)
Fixpoint enumerate {A} (start : Z) (l : list A) : list (Z * A) :=
  match l with
  | [] => []
  | x :: l' => (start, x) :: enumerate (start + 1) l'
  end.

(** ** Regular expressions

    The two patterns of the linter are sequences of literal characters and
    of greedy runs [[^c]+] and [[^c]*].  The character after each run is the
    literal [c] itself, so a run can only end where [c] first occurs: the
    greedy run is the one candidate, and backtracking never finds another. *)

Record Match := { group0 : str; group1 : str; group2 : str }.

Definition not_char (c : N) (x : char) : bool := negb (char_eqb x c).

Definition LBRACKET : N := 91.
Definition RBRACKET : N := 93.
Definition LPAREN : N := 40.
Definition RPAREN : N := 41.
Definition BANG : N := 33.

(** The tail of a pattern shared by both: [group1] has been read and [s]
    is what follows it: a closing bracket, an opening parenthesis, the
    greedy non-empty run of characters other than a closing parenthesis
    ([group2]) and that closing parenthesis. *)
Definition match_tail (before g1 s : str) : option (Match * str) :=
  match s with
  | c1 :: c2 :: s3 =>
      if char_eqb c1 RBRACKET && char_eqb c2 LPAREN then
        let g2 := takewhile (not_char RPAREN) s3 in
        match g2, dropwhile (not_char RPAREN) s3 with
        | _ :: _, c3 :: rest =>
            if char_eqb c3 RPAREN then
              Some ({| group0 := before ++ g1 ++ [c1; c2] ++ g2 ++ [c3];
                       group1 := g1; group2 := g2 |}, rest)
            else None
        | _, _ => None
        end
      else None
  | _ => None
  end.

(** [link_pattern] matched at the start of [s]: an opening bracket, the
    greedy non-empty run of characters other than a closing bracket
    ([group1]), then the shared tail.  The result is the match and the text
    after it. *)
Definition match_link (s : str) : option (Match * str) :=
  match s with
  | c0 :: s1 =>
      if char_eqb c0 LBRACKET then
        let g1 := takewhile (not_char RBRACKET) s1 in
        match g1 with
        | _ :: _ => match_tail [c0] g1 (dropwhile (not_char RBRACKET) s1)
        | [] => None
        end
      else None
  | [] => None
  end.

(** [img_pattern] matched at the start of [s]: as [link_pattern] after an
    exclamation mark, but the run of [group1] may be empty. *)
Definition match_img (s : str) : option (Match * str) :=
  match s with
  | c0 :: c1 :: s1 =>
      if char_eqb c0 BANG && char_eqb c1 LBRACKET then
        match_tail [c0; c1] (takewhile (not_char RBRACKET) s1)
                   (dropwhile (not_char RBRACKET) s1)
      else None
  | _ => None
  end.

(** [re.finditer]: the matches found scanning left to right, each search
    resuming where the previous match ended.  [skip] counts the characters
    of the last match still to be passed over. *)
Fixpoint finditer_from (m : str -> option (Match * str)) (skip : nat) (s : str)
  : list Match :=
  match s with
  | [] => []
  | _ :: s' =>
      match skip with
      | S k => finditer_from m k s'
      | O =>
          match m s with
          | Some (mt, _) => mt :: finditer_from m (length (group0 mt) - 1)%nat s'
          | None => finditer_from m 0 s'
          end
      end
  end.

Definition finditer (m : str -> option (Match * str)) (s : str) : list Match :=
  finditer_from m 0 s.

(** ** The linter *)

(** An issue is the dict with keys ['line'], ['type'] and ['message'];
    ['type'] is one of the two literals ['warning'] and ['error']. *)
Inductive issue_type := warning | error.

#[global] Instance issue_type_eq_dec : EqDecision issue_type.
Proof. solve_decision. Defined.

Record issue := { line : Z; type : issue_type; message : str }.

Definition msg_header (i : Z) : str :=
  lit "Consider adding blank line after header at line " ++ str_of_int i.

Definition msg_level (level i : Z) : str :=
  lit "Invalid heading level " ++ str_of_int level ++ lit " at line " ++
  str_of_int i ++ lit " (max is 6)".

Definition msg_link (i : Z) (m : str) : str :=
  lit "Empty link URL at line " ++ str_of_int i ++ lit ": " ++ m.

Definition msg_img (i : Z) : str :=
  lit "Image without alt text at line " ++ str_of_int i ++
  lit " (accessibility issue)".

Definition msg_table (i : Z) : str :=
  lit "Table row at line " ++ str_of_int i ++ lit " should start with |".

Definition msg_code (i : Z) : str :=
  lit "Consider adding blank line after code block at line " ++ str_of_int i.

(** [issues.append(x)] *)
Definition append (issues : list issue) (x : issue) : list issue :=
  issues ++ [x].

(** The body of the first loop of [_lint_markdown], for line [i] of
    [lines], is five checks in sequence; each returns the list [issues] as
    it leaves it. *)

(** Headers without blank line after. *)
Definition check_header (lines : list str) (i : Z) (line : str)
    (issues : list issue) : result (list issue) :=
  if (i <? len lines) && startswith line HASH then
    next_line <- (if i <? len lines then getitem lines i else Ok []) ;;
    if truthy next_line && negb (str_eqb (strip next_line) [])
       && negb (startswith next_line HASH)
    then Ok (append issues
               {| line := i + 1; type := warning; message := msg_header i |})
    else Ok issues
  else Ok issues.

(** Heading levels, skipping the first few lines. *)
Definition check_level (i : Z) (line : str) (issues : list issue)
  : list issue :=
  if startswith line HASH && (i >? 3) then
    let level := len line - len (lstrip_chars HASH line) in
    if level >? 6 then
      append issues
        {| line := i; type := error; message := msg_level level i |}
    else issues
  else issues.

(** Broken links. *)
Definition check_links (i : Z) (line : str) (issues : list issue)
  : result (list issue) :=
  let matches := finditer match_link line in
  for_each (fun mt issues =>
              let url := group2 mt in
              if str_eqb (strip url) [] then
                Ok (append issues
                      {| line := i; type := error;
                         message := msg_link i (group0 mt) |})
              else Ok issues)
           matches issues.

(** Images without alt text. *)
Definition check_images (i : Z) (line : str) (issues : list issue)
  : result (list issue) :=
  let img_matches := finditer match_img line in
  for_each (fun mt issues =>
              let alt_text := group1 mt in
              if negb (truthy alt_text) || str_eqb (strip alt_text) [] then
                Ok (append issues
                      {| line := i; type := warning; message := msg_img i |})
              else Ok issues)
           img_matches issues.

(** Table formatting. *)
Definition check_table (lines : list str) (i : Z) (line : str)
    (issues : list issue) : result (list issue) :=
  if contains PIPE line && negb (startswith (strip line) PIPE) then
    c <- (if i >? 1 then                       (* ... if i > 1 else False *)
            if i >? 1 then                       (* i > 1 and ... *)
              prev <- getitem lines (i - 2) ;; Ok (contains PIPE prev)
            else Ok false
          else Ok false) ;;
    if (c : bool) then
      Ok (append issues
            {| line := i; type := warning; message := msg_table i |})
    else Ok issues
  else Ok issues.

Definition check_line (lines : list str) (il : Z * str) (issues : list issue)
  : result (list issue) :=
  let '(i, line) := il in
  issues <- check_header lines i line issues ;;
  let issues := check_level i line issues in
  issues <- check_links i line issues ;;
  issues <- check_images i line issues ;;
  check_table lines i line issues.

(** The body of the second loop; its state is [in_code_block] and
    [issues]. *)
Definition check_fence (lines : list str) (il : Z * str)
    (st : bool * list issue) : result (bool * list issue) :=
  let '(i, line) := il in
  let '(in_code_block, issues) := st in
  if startswith (strip line) FENCE then
    let in_code_block := negb in_code_block in
    if negb in_code_block && (i <? len lines) then
      next_line <- (if i <? len lines then getitem lines i else Ok []) ;;
      if truthy next_line && negb (str_eqb (strip next_line) []) then
        Ok (in_code_block,
            append issues
              {| line := i + 1; type := warning; message := msg_code i |})
      else Ok (in_code_block, issues)
    else Ok (in_code_block, issues)
  else Ok (in_code_block, issues).

(** The report of [_lint_markdown] for [text]: the list [issues] when the
    two loops are over. *)
Definition lint (text : str) : result (list issue) :=
  let issues := [] in
  let lines := split NL text in
  issues <- for_each (check_line lines) (enumerate 1 lines) issues ;;
  let in_code_block := false in
  st <- for_each (check_fence lines) (enumerate 1 lines)
          (in_code_block, issues) ;;
  Ok (snd st).

(** ** The application state touched by the linter *)

Record app := { lint_issues : gmap str (list issue); status : str }.

(** [_set_status]: the text of the status bar. *)
Definition _set_status (text : str) (a : app) : app :=
  {| lint_issues := lint_issues a; status := text |}.

Definition truthy_list {A} (l : list A) : bool :=
  match l with [] => false | _ => true end.

(** [sum(1 for issue in issues if issue['type'] == t)] *)
Definition count_type (t : issue_type) (issues : list issue) : Z :=
  len (filter (fun x => type x = t) issues).

Definition _lint_markdown (editor_id : str) (text : str) (a : app)
  : result app :=
  issues <- lint text ;;
  (* store issues *)
  let a := {| lint_issues := <[editor_id := issues]> (lint_issues a);
              status := status a |} in
  (* status bar *)
  if truthy_list issues then
    let errors := count_type error issues in
    let warnings := count_type warning issues in
    if errors >? 0 then
      Ok (_set_status
            (lit "Lint: " ++ str_of_int errors ++ lit " error(s), " ++
             str_of_int warnings ++
             lit " warning(s) | Press Ctrl+L for details") a)
    else
      Ok (_set_status
            (lit "Lint: " ++ str_of_int warnings ++
             lit " warning(s) | Press Ctrl+L for details") a)
  else
    (* [_active_editor_id] is only read; the branch ends in [pass] *)
    Ok a.

(** A document given by its lines, joined by newlines. *)
Definition text_of (ls : list string) : str :=
  match ls with
  | [] => []
  | l :: ls' => lit l ++ (ls' ≫= fun l' => NL :: lit l')
  end.

(** ** The rules as the specification words them

    Each rule is a function from a line and its 1-based position to the
    findings it contributes; the report is compared with them below. *)

Definition blank (s : str) : bool := str_eqb (strip s) [].

(** The line after line [i] (1-based), if line [i] is not the last. *)
Definition line_after (lines : list str) (i : Z) : option str :=
  lines !! Z.to_nat i.

(** The line before line [i] (1-based), if line [i] is not the first. *)
Definition line_before (lines : list str) (i : Z) : option str :=
  if i <=? 1 then None else lines !! Z.to_nat (i - 2).

(** Count of leading '#' characters before the first other character. *)
Definition depth (line : str) : Z :=
  len (takewhile (fun c => char_eqb c 35%N) line).

Definition rule1 (lines : list str) (i : Z) (line : str) : list issue :=
  match line_after lines i with
  | Some next =>
      if startswith line HASH && negb (blank next) &&
         negb (startswith next HASH)
      then [{| line := i + 1; type := warning; message := msg_header i |}]
      else []
  | None => []
  end.

Definition rule2 (i : Z) (line : str) : list issue :=
  if startswith line HASH && (3 <? i) && (6 <? depth line)
  then [{| line := i; type := error;
           message := msg_level (depth line) i |}]
  else [].

Definition rule3 (i : Z) (line : str) : list issue :=
  finditer match_link line ≫= fun mt =>
    if blank (group2 mt)
    then [{| line := i; type := error; message := msg_link i (group0 mt) |}]
    else [].

Definition rule4 (i : Z) (line : str) : list issue :=
  finditer match_img line ≫= fun mt =>
    if blank (group1 mt)
    then [{| line := i; type := warning; message := msg_img i |}]
    else [].

Definition rule5 (lines : list str) (i : Z) (line : str) : list issue :=
  match line_before lines i with
  | Some prev =>
      if contains PIPE line && negb (startswith (strip line) PIPE) &&
         contains PIPE prev
      then [{| line := i; type := warning; message := msg_table i |}]
      else []
  | None => []
  end.

Definition rules_1_5_line (lines : list str) (il : Z * str) : list issue :=
  rule1 lines il.1 il.2 ++ rule2 il.1 il.2 ++ rule3 il.1 il.2 ++
  rule4 il.1 il.2 ++ rule5 lines il.1 il.2.

(** The findings of rules 1 to 5: one pass over the lines, the rules in
    their fixed order on each line. *)
Definition rules_1_5 (lines : list str) : list issue :=
  enumerate 1 lines ≫= rules_1_5_line lines.

(** A line whose trimmed content starts with three backticks. *)
Definition is_fence (line : str) : bool := startswith (strip line) FENCE.

(** The inside-code-fence flag when line [i] (1-based) is reached: it
    started false and was toggled by each fence line above. *)
Definition toggled (above : list str) : bool :=
  Nat.odd (length (filter (fun l => is_fence l = true) above)).

Definition inside_at (lines : list str) (i : Z) : bool :=
  toggled (take (Z.to_nat (i - 1)) lines).

(** Line [i] is a closing fence: a fence line reached inside a block. *)
Definition closing_fence (lines : list str) (i : Z) (line : str) : bool :=
  is_fence line && inside_at lines i.

Definition rule6 (lines : list str) (il : Z * str) : list issue :=
  if closing_fence lines il.1 il.2 then
    match line_after lines il.1 with
    | Some next =>
        if negb (blank next)
        then [{| line := il.1 + 1; type := warning;
                 message := msg_code il.1 |}]
        else []
    | None => []
    end
  else [].

(** The findings of rule 6: a second pass over the lines. *)
Definition rule6_findings (lines : list str) : list issue :=
  enumerate 1 lines ≫= rule6 lines.

(** Line [i] (1-based) of the document is [line]. *)
Definition line_at (lines : list str) (i : Z) (line : str) : Prop :=
  1 <= i /\ lines !! Z.to_nat (i - 1) = Some line.

(** A list of issues is in line order when the line numbers never
    decrease along it. *)
Definition in_line_order (l : list issue) : Prop :=
  StronglySorted (fun x y => line x <= line y) l.

(** In scan order a finding is reported on the line being scanned or on
    the next one, so a later finding is at most one line above. *)
Definition in_scan_order (l : list issue) : Prop :=
  StronglySorted (fun x y => line x <= line y + 1) l.

(** The first character of a message, and the character after the words
    "Consider adding blank line after ". *)
Definition first_char (m : str) : option char := m !! 0%nat.
Definition char_after (m : str) : option char := m !! 33%nat.

(** ** The console, the shell panel and the editor events

    The methods below use [pathlib], [subprocess] and the widgets.  The
    operations on paths and the run of a shell command are taken from the
    platform as they are; of the widgets the model keeps what the code
    stores in them: the text of the status bar and the text of the command
    output.  [_highlight_shell_keywords] is a pure function from text to
    text (a chain of case-insensitive, Unicode-aware [re.sub] calls) and is
    kept abstract too. *)

(** The outcome of [subprocess.run(..., capture_output=True, text=True,
    timeout=10)]: a completed process, the timeout, or another exception,
    given by its text. *)
Record CompletedProcess :=
  { stdout : str; stderr : str; returncode : Z }.

Inductive run_outcome :=
| Completed (r : CompletedProcess)
| TimeoutExpired
| Failed (e : str).

Class Platform := {
  Path : Type;
  Path_eq_dec :: EqDecision Path;
  resolve : Path -> Path;
  parent : Path -> Path;
  parents : Path -> list Path;
  path_exists : Path -> bool;
  is_dir : Path -> bool;
  joinpath : Path -> str -> Path;
  str_of_path : Path -> str;
  name : Path -> str;
  subprocess_run : str -> Path -> run_outcome;
  _highlight_shell_keywords : str -> str
}.

(** The attributes of the application the methods below read and write.
    [_command_output_text] is [None] until the attribute is first set. *)
Record ide `{Platform} := {
  core : app;
  editor_files : gmap str (option Path);
  modified : gmap str bool;
  _command_output_text : option str;
  command_output : str;
  root_path : Path;
  current_working_dir : Path
}.

Definition with_core `{Platform} (c : app) (s : ide) : ide :=
  {| core := c; editor_files := editor_files s; modified := modified s;
     _command_output_text := _command_output_text s;
     command_output := command_output s; root_path := root_path s;
     current_working_dir := current_working_dir s |}.

Definition with_modified `{Platform} (m : gmap str bool) (s : ide) : ide :=
  {| core := core s; editor_files := editor_files s; modified := m;
     _command_output_text := _command_output_text s;
     command_output := command_output s; root_path := root_path s;
     current_working_dir := current_working_dir s |}.

Definition with_cwd `{Platform} (p : Path) (s : ide) : ide :=
  {| core := core s; editor_files := editor_files s; modified := modified s;
     _command_output_text := _command_output_text s;
     command_output := command_output s; root_path := root_path s;
     current_working_dir := p |}.

Definition set_status `{Platform} (text : str) (s : ide) : ide :=
  with_core (_set_status text (core s)) s.

(** [_append_command_output]: the highlighted message goes on a new line
    of the text kept in [_command_output_text], or replaces it while it is
    empty; the widget shows the result. *)
Definition _append_command_output `{Platform} (message : str) (s : ide)
  : ide :=
  let highlighted_message := _highlight_shell_keywords message in
  let text :=
    match _command_output_text s with
    | None => []                                  (* not hasattr: set to "" *)
    | Some t => t
    end in
  let text :=
    if truthy text then text ++ [NL] ++ highlighted_message
    else highlighted_message in
  {| core := core s; editor_files := editor_files s; modified := modified s;
     _command_output_text := Some text; command_output := text;
     root_path := root_path s;
     current_working_dir := current_working_dir s |}.

(** [_execute_shell_command].  The second component of the intermediate
    pair tells that the [cd] branch has returned after an error. *)
Definition _execute_shell_command `{Platform} (command : str) (s : ide)
  : ide :=
  if negb (truthy (strip command)) then s
  else
    let command_stripped := strip command in
    if startswith command_stripped (lit "cd ") then
      let target_dir := strip (drop 3 command_stripped) in
      let '(s, returned) :=
        if negb (truthy target_dir) then
          (with_cwd (root_path s) s, false)
        else if str_eqb target_dir (lit "..") then
          let parent_ := parent (current_working_dir s) in
          if bool_decide (resolve parent_ <> resolve (root_path s)) &&
             bool_decide (resolve (root_path s) ∈ parents (resolve parent_))
          then (with_cwd parent_ s, false)
          else if bool_decide (resolve parent_ = resolve (root_path s))
          then (with_cwd (root_path s) s, false)
          else (with_cwd (root_path s) s, false)
        else
          let target_path :=
            resolve (joinpath (current_working_dir s) target_dir) in
          if path_exists target_path && is_dir target_path then
            if bool_decide (resolve (root_path s)
                              ∈ parents (resolve target_path)) ||
               bool_decide (resolve target_path = resolve (root_path s))
            then (with_cwd target_path s, false)
            else
              (_append_command_output
                 (lit "[error]Cannot change directory outside root path")
                 (_append_command_output (lit "$ " ++ command) s), true)
          else
            (_append_command_output
               (lit "[error]Directory not found: " ++ target_dir)
               (_append_command_output (lit "$ " ++ command) s), true) in
      if returned then s
      else
        _append_command_output
          (lit "[cwd: " ++ str_of_path (current_working_dir s) ++ lit "]")
          (_append_command_output (lit "$ " ++ command) s)
    else
      let s := _append_command_output (lit "$ " ++ command) s in
      match subprocess_run command (current_working_dir s) with
      | Completed result =>
          let s :=
            if truthy (stdout result)
            then _append_command_output (stdout result) s else s in
          let s :=
            if truthy (stderr result)
            then _append_command_output
                   (lit "[stderr]" ++ [NL] ++ stderr result) s
            else s in
          if negb (returncode result =? 0)
          then _append_command_output
                 (lit "[exit code: " ++ str_of_int (returncode result) ++
                  lit "]") s
          else _append_command_output (lit "[success]") s
          (* then the file tree is rebuilt: widgets only *)
      | TimeoutExpired =>
          _append_command_output
            (lit "[error]Command timed out after 10 seconds") s
      | Failed e =>
          _append_command_output
            (lit "[error]Failed to execute command: " ++ e) s
      end.

(** The key bindings every file status ends with. *)
Definition KEYS_HINT : str :=
  lit "  |  Ctrl+N: New  Ctrl+O: Open  Ctrl+S: Save  Ctrl+W: Close tab  Ctrl+H: Help  Ctrl+L: Lint  Ctrl+Enter: Execute  Ctrl+Q: Quit".

(** [_update_status_for_editor]; [editor_id] is [None] when no editor is
    active. *)
Definition _update_status_for_editor `{Platform} (editor_id : option str)
    (s : ide) : ide :=
  match editor_id with
  | None => set_status (lit "No file open.") s
  | Some editor_id =>
      let path := default None (editor_files s !! editor_id) in
      let star :=
        if default false (modified s !! editor_id) then lit "*" else [] in
      let file_name :=
        match path with Some p => name p | None => lit "untitled.md" end in
      set_status (file_name ++ star ++ KEYS_HINT) s
  end.

(** [on_text_area_changed], for the text area with id [editor_id] and text
    [text]; [pane] tells whether a tab pane is active. *)
Definition on_text_area_changed `{Platform} (editor_id : option str)
    (text : str) (pane : bool) (s : ide) : result ide :=
  match editor_id with
  | None => Ok s                       (* None is no key of editor_files *)
  | Some editor_id =>
      if bool_decide (editor_id ∉ dom (editor_files s)) then Ok s
      else
        let s := with_modified (<[editor_id := true]> (modified s)) s in
        let s := _update_status_for_editor (Some editor_id) s in
        if negb pane then Ok s
        else
          (* the preview widget is updated with the text *)
          c <- _lint_markdown editor_id text (core s) ;;
          Ok (with_core c s)
  end.







(** ** Tabs *)

Definition with_editor_files `{Platform} (m : gmap str (option Path))
    (s : ide) : ide :=
  {| core := core s; editor_files := m; modified := modified s;
     _command_output_text := _command_output_text s;
     command_output := command_output s; root_path := root_path s;
     current_working_dir := current_working_dir s |}.

(** The id [open_file] and [create_new_file] give to the editor of a new
    tab: "editor_" and the number of registered editors plus one. *)
Definition new_editor_id `{Platform} (editor_files : gmap str (option Path))
  : str :=
  lit "editor_" ++ str_of_int (Z.of_nat (size editor_files) + 1).

(** [p and p.name.startswith("untitled")] *)
Definition named_untitled `{Platform} (p : option Path) : bool :=
  match p with
  | Some p => startswith (name p) (lit "untitled")
  | None => false
  end.

(** The title [create_new_file] gives to the new tab. *)
Definition new_file_title `{Platform} (editor_files : gmap str (option Path))
  : str :=
  let untitled_count :=
    len (filter (fun kp => named_untitled kp.2 = true)
                (map_to_list editor_files)) in
  if untitled_count >? 0
  then lit "untitled" ++ str_of_int (untitled_count + 1) ++ lit ".md"
  else lit "untitled.md".


(** [close_current_tab] when the editor [editor_id] is active;
    [active_after] is the editor that is active once the pane is removed. *)
Definition close_current_tab `{Platform} (editor_id : str)
    (active_after : option str) (s : ide) : ide :=
  let closed :=
    match editor_files s !! editor_id with
    | Some (Some p) => str_of_path p
    | Some None => lit "None"
    | None => lit "unknown"
    end in
  let s := _append_command_output (lit "Closed tab for " ++ closed) s in
  let s := with_editor_files (delete editor_id (editor_files s)) s in
  let s := with_modified (delete editor_id (modified s)) s in
  _update_status_for_editor active_after s.

(** The id of the [k]-th editor, and the ids of the first [n]. *)
Definition editor_id (k : Z) : str := lit "editor_" ++ str_of_int k.

Definition editor_ids (n : nat) : gset str :=
  list_to_set ((fun k => editor_id (Z.of_nat k)) <$> seq 1 n).

(** A small platform to run the methods on: a path is the list of its
    components below the file system root, every path is a directory that
    exists, nothing is a symbolic link, a shell command succeeds silently
    and nothing is highlighted. *)
Fixpoint proper_prefixes {A} (l : list A) : list (list A) :=
  match l with
  | [] => []
  | x :: l' => [] :: ((x ::.) <$> proper_prefixes l')
  end.

#[global] Instance demo_platform : Platform := {|
  Path := list str;
  resolve := fun p => p;
  parent := fun p => removelast p;
  parents := fun p => rev (proper_prefixes p);
  path_exists := fun _ => true;
  is_dir := fun _ => true;
  joinpath := fun p s => p ++ [s];
  str_of_path := fun p => p ≫= fun c => lit "/" ++ c;
  name := fun p => default [] (last p);
  subprocess_run := fun _ _ =>
    Completed {| stdout := []; stderr := []; returncode := 0 |};
  _highlight_shell_keywords := fun m => m
|}.


(** The application after a new file has been created in "editor_1": the
    editor is registered, without a path yet. *)
Definition demo_ide : ide (H := demo_platform) :=
  {| core := {| lint_issues := {[ lit "editor_1" := [] ]}; status := [] |};
     editor_files := {[ lit "editor_1" := None ]};
     modified := {[ lit "editor_1" := true ]};
     _command_output_text := None; command_output := [];
     root_path := [lit "home"]; current_working_dir := [lit "home"] |}.

(** ** Python primitives *)

Section primitives.
Context {A : Type}.
Implicit Types (l : list A) (i : Z).

Lemma len_nonneg l : 0 <= len l.
Proof. unfold len. lia. Qed.

Lemma len_app l1 l2 : len (l1 ++ l2) = len l1 + len l2.
Proof. unfold len. rewrite length_app. lia. Qed.

Lemma len_cons x l : len (x :: l) = len l + 1.
Proof. unfold len. simpl. lia. Qed.

(** Inside its bounds, indexing returns the element and does not raise. *)
Lemma getitem_lt l i :
  0 <= i < len l ->
  exists x, l !! Z.to_nat i = Some x /\ getitem l i = Ok x.
Proof.
  intros Hi. unfold getitem.
  destruct (Z.ltb_spec i 0) as [|_]; [lia|].
  destruct (Z.leb_spec 0 i); [|lia].
  destruct (Z.ltb_spec i (len l)); [|lia]. simpl.
  destruct (l !! Z.to_nat i) as [x|] eqn:Hx; [by exists x|].
  apply lookup_ge_None in Hx. unfold len in *. lia.
Qed.

Lemma lookup_len l (n : nat) x : l !! n = Some x -> Z.of_nat n < len l.
Proof. intros H%lookup_lt_Some. unfold len. lia. Qed.

Lemma lookup_len_None l i : len l <= i -> l !! Z.to_nat i = None.
Proof. intros H. apply lookup_ge_None. unfold len in H. lia. Qed.

(** The pairs of [enumerate]: positions count up from [start]. *)
Lemma elem_of_enumerate l start i x :
  (i, x) ∈ enumerate start l <->
  start <= i /\ l !! Z.to_nat (i - start) = Some x.
Proof.
  revert start. induction l as [|y l IH]; intros start; simpl.
  - split; [by intros ?%elem_of_nil|by intros [_ ?]].
  - rewrite elem_of_cons, IH. split.
    + intros [[= Hi Hx]|[Hle Hx]].
      * subst. split; [lia|]. by replace (start - start) with 0 by lia.
      * split; [lia|].
        replace (Z.to_nat (i - start)) with (S (Z.to_nat (i - (start + 1))))
          by lia.
        done.
    + intros [Hle Hx]. destruct (decide (i = start)) as [->|Hne].
      * left. replace (start - start) with 0 in Hx by lia.
        simpl in Hx. congruence.
      * right. split; [lia|].
        replace (Z.to_nat (i - start)) with (S (Z.to_nat (i - (start + 1))))
          in Hx by lia.
        done.
Qed.

Lemma enumerate_app l1 l2 start :
  enumerate start (l1 ++ l2) =
  enumerate start l1 ++ enumerate (start + len l1) l2.
Proof.
  revert start. induction l1 as [|y l1 IH]; intros start; simpl.
  - f_equal. unfold len. simpl. lia.
  - rewrite IH, len_cons. do 3 f_equal. lia.
Qed.

End primitives.

(** A loop whose body only appends to the list it threads never raises,
    and appends the findings of each element in turn. *)
Lemma for_each_appends {A B} (body : A -> list B -> result (list B))
    (f : A -> list B) (l : list A) (acc : list B) :
  (forall x acc', x ∈ l -> body x acc' = Ok (acc' ++ f x)) ->
  for_each body l acc = Ok (acc ++ (l ≫= f)).
Proof.
  revert acc. induction l as [|x l IH]; intros acc Hbody; simpl.
  - by rewrite app_nil_r.
  - rewrite Hbody by left. simpl. rewrite IH.
    + by rewrite <- app_assoc.
    + intros y acc' Hy. apply Hbody. by right.
Qed.

Lemma nonblank_test (s : str) :
  truthy s && negb (str_eqb (strip s) []) = negb (blank s).
Proof.
  unfold blank. destruct s as [|c s]; [reflexivity|done].
Qed.

Lemma dropwhile_length {A} (p : A -> bool) (l : list A) :
  length l = (length (takewhile p l) + length (dropwhile p l))%nat.
Proof.
  induction l as [|x l IH]; simpl; [done|].
  destruct (p x); simpl; lia.
Qed.

(** The heading level the code computes is the depth of the header. *)
Lemma level_depth (line : str) :
  len line - len (lstrip_chars HASH line) = depth line.
Proof.
  assert (forall l : str,
             dropwhile (fun c => existsb (char_eqb c) HASH) l =
             dropwhile (fun c => char_eqb c 35%N) l) as E.
  { induction l as [|c l IH]; [done|]. cbn [dropwhile].
    change (existsb (char_eqb c) HASH) with (char_eqb c 35%N || false).
    rewrite orb_false_r. destruct (char_eqb c 35%N); [apply IH|reflexivity]. }
  unfold depth, lstrip_chars, len. rewrite E.
  rewrite (dropwhile_length (fun c => char_eqb c 35%N) line). lia.
Qed.

(** ** The loop bodies against the rules *)

Section bodies.
Variable lines : list str.
Implicit Types (i : Z) (line : str) (issues : list issue).

Lemma check_header_rule1 i line issues :
  0 <= i ->
  check_header lines i line issues = Ok (issues ++ rule1 lines i line).
Proof.
  intros Hi. unfold check_header, rule1, line_after.
  destruct (Z.ltb_spec i (len lines)) as [Hlt|Hge]; simpl.
  - destruct (getitem_lt lines i) as (next & -> & ->); [lia|].
    destruct (startswith line HASH); simpl; [|by rewrite app_nil_r].
    rewrite nonblank_test.
    destruct (negb (blank next) && negb (startswith next HASH)); simpl;
      [done|by rewrite app_nil_r].
  - rewrite lookup_len_None by done. by rewrite app_nil_r.
Qed.

Lemma check_level_rule2 i line issues :
  check_level i line issues = issues ++ rule2 i line.
Proof.
  unfold check_level, rule2. rewrite level_depth, !Z.gtb_ltb.
  destruct (startswith line HASH); simpl; [|by rewrite app_nil_r].
  destruct (3 <? i); simpl; [|by rewrite app_nil_r].
  destruct (6 <? depth line); [done|by rewrite app_nil_r].
Qed.

Lemma check_links_rule3 i line issues :
  check_links i line issues = Ok (issues ++ rule3 i line).
Proof.
  unfold check_links, rule3. apply for_each_appends.
  intros mt acc _. unfold blank.
  destruct (str_eqb (strip (group2 mt)) []); [done|by rewrite app_nil_r].
Qed.

Lemma check_images_rule4 i line issues :
  check_images i line issues = Ok (issues ++ rule4 i line).
Proof.
  unfold check_images, rule4. apply for_each_appends.
  intros mt acc _.
  replace (negb (truthy (group1 mt)) || str_eqb (strip (group1 mt)) [])
    with (blank (group1 mt)).
  - destruct (blank (group1 mt)); [done|by rewrite app_nil_r].
  - unfold blank. by destruct (group1 mt).
Qed.

Lemma check_table_rule5 i line issues :
  i - 2 < len lines ->
  check_table lines i line issues = Ok (issues ++ rule5 lines i line).
Proof.
  intros Hi. unfold check_table, rule5, line_before. rewrite Z.gtb_ltb.
  destruct (Z.ltb_spec 1 i) as [Hlt|Hge];
    destruct (Z.leb_spec i 1) as [Hle|Hgt]; try lia.
  - destruct (getitem_lt lines (i - 2)) as (prev & -> & ->); [lia|].
    destruct (contains PIPE line && negb (startswith (strip line) PIPE));
      simpl; [|by rewrite app_nil_r].
    destruct (contains PIPE prev); [done|by rewrite app_nil_r].
  - rewrite app_nil_r.
    by destruct (contains PIPE line && negb (startswith (strip line) PIPE)).
Qed.

(** One iteration of the first loop appends the findings of rules 1 to 5
    for its line. *)
Lemma check_line_rules il issues :
  1 <= il.1 <= len lines ->
  check_line lines il issues = Ok (issues ++ rules_1_5_line lines il).
Proof.
  destruct il as [i line]. simpl. intros Hi.
  unfold check_line, rules_1_5_line. simpl.
  rewrite check_header_rule1 by lia. simpl.
  rewrite check_level_rule2, check_links_rule3. simpl.
  rewrite check_images_rule4. simpl.
  rewrite check_table_rule5 by lia.
  by rewrite <- !app_assoc.
Qed.

Lemma enumerate_bounds i line :
  (i, line) ∈ enumerate 1 lines -> 1 <= i <= len lines.
Proof.
  intros [Hle Hx]%elem_of_enumerate. apply lookup_len in Hx. lia.
Qed.

(** The first loop never raises and collects the findings of rules 1-5. *)
Lemma first_loop issues :
  for_each (check_line lines) (enumerate 1 lines) issues =
  Ok (issues ++ rules_1_5 lines).
Proof.
  apply for_each_appends. intros [i line] acc Hin.
  apply check_line_rules. simpl. by eapply enumerate_bounds.
Qed.
End bodies.

(** ** The second loop against rule 6 *)

Lemma toggled_snoc (above : list str) (line : str) :
  toggled (above ++ [line]) = xorb (toggled above) (is_fence line).
Proof.
  unfold toggled. rewrite filter_app, length_app, Nat.odd_add.
  f_equal. rewrite filter_cons, filter_nil.
  destruct (is_fence line); by case_decide.
Qed.

Section fences.
Variable lines : list str.

(** One iteration: the flag is toggled by a fence line, and a closing
    fence appends the finding of rule 6. *)
Lemma check_fence_step i line (flag : bool) issues :
  0 <= i ->
  check_fence lines (i, line) (flag, issues) =
  Ok (xorb flag (is_fence line),
      issues ++
      if is_fence line && flag then
        match line_after lines i with
        | Some next =>
            if negb (blank next)
            then [{| line := i + 1; type := warning;
                     message := msg_code i |}]
            else []
        | None => []
        end
      else []).
Proof.
  intros Hi. unfold check_fence, line_after. fold (is_fence line).
  destruct (is_fence line); simpl;
    [|by rewrite xorb_false_r, app_nil_r].
  destruct flag; simpl; [|by rewrite app_nil_r].
  destruct (Z.ltb_spec i (len lines)) as [Hlt|Hge]; simpl.
  - destruct (getitem_lt lines i) as (next & -> & ->); [lia|]. simpl.
    rewrite nonblank_test.
    destruct (negb (blank next)); [done|by rewrite app_nil_r].
  - rewrite lookup_len_None by done. by rewrite app_nil_r.
Qed.

Lemma second_loop_from above below issues :
  lines = above ++ below ->
  for_each (check_fence lines) (enumerate (len above + 1) below)
           (toggled above, issues) =
  Ok (toggled lines,
      issues ++ (enumerate (len above + 1) below ≫= rule6 lines)).
Proof.
  revert above issues.
  induction below as [|line below IH]; intros above issues Hlines.
  - simpl. by rewrite Hlines, !app_nil_r.
  - cbn [enumerate for_each].
    rewrite check_fence_step by (pose proof (len_nonneg above); lia).
    cbn [bind]. rewrite <- toggled_snoc.
    assert (len (above ++ [line]) + 1 = len above + 1 + 1) as He
      by (rewrite len_app; unfold len; simpl; lia).
    assert (take (Z.to_nat (len above + 1 - 1)) lines = above) as Ht.
    { replace (Z.to_nat (len above + 1 - 1)) with (length above)
        by (unfold len; lia).
      by rewrite Hlines, take_app_length. }
    specialize (IH (above ++ [line])). rewrite He in IH.
    rewrite IH by (by rewrite <- app_assoc).
    rewrite bind_cons, app_assoc. do 3 f_equal.
    unfold rule6, closing_fence, inside_at. cbn [fst snd].
    by rewrite Ht.
Qed.

(** The second loop never raises and collects the findings of rule 6. *)
Lemma second_loop issues :
  for_each (check_fence lines) (enumerate 1 lines) (false, issues) =
  Ok (toggled lines, issues ++ rule6_findings lines).
Proof. exact (second_loop_from [] lines issues eq_refl). Qed.
End fences.

(** The report is the findings of the two passes, one after the other. *)
Lemma lint_findings (text : str) :
  lint text =
  Ok (rules_1_5 (split NL text) ++ rule6_findings (split NL text)).
Proof.
  unfold lint. rewrite first_loop. cbn [bind].
  rewrite second_loop. reflexivity.
Qed.

(** ** What a finding of each rule looks like *)

Section findings.
Variable lines : list str.
Implicit Types (i : Z) (line : str) (x : issue).

Lemma elem_of_rule1 x i line :
  x ∈ rule1 lines i line <->
  exists next,
    line_after lines i = Some next /\ startswith line HASH = true /\
    blank next = false /\ startswith next HASH = false /\
    x = {| line := i + 1; type := warning; message := msg_header i |}.
Proof.
  unfold rule1. destruct (line_after lines i) as [next|].
  - destruct (startswith line HASH) eqn:E1, (blank next) eqn:E2,
      (startswith next HASH) eqn:E3; simpl;
      rewrite ?list_elem_of_singleton, ?elem_of_nil; split;
      try (by intros (? & [= <-] & ? & ? & ? & ?); congruence);
      try done.
    intros ->. by exists next.
  - rewrite elem_of_nil. split; [done|]. by intros (? & ? & _).
Qed.

Lemma elem_of_rule2 x i line :
  x ∈ rule2 i line <->
  startswith line HASH = true /\ 3 < i /\ 6 < depth line /\
  x = {| line := i; type := error; message := msg_level (depth line) i |}.
Proof.
  unfold rule2.
  destruct (startswith line HASH), (Z.ltb_spec 3 i),
    (Z.ltb_spec 6 (depth line)); simpl;
    rewrite ?list_elem_of_singleton, ?elem_of_nil;
    split; try done; try (intros (? & ? & ? & ?); (done || lia)).
Qed.

Lemma elem_of_rule3 x i line :
  x ∈ rule3 i line <->
  exists mt,
    mt ∈ finditer match_link line /\ blank (group2 mt) = true /\
    x = {| line := i; type := error; message := msg_link i (group0 mt) |}.
Proof.
  unfold rule3. rewrite list_elem_of_bind. split.
  - intros (mt & Hx & Hmt). exists mt.
    destruct (blank (group2 mt)); [|by apply elem_of_nil in Hx].
    by apply list_elem_of_singleton in Hx.
  - intros (mt & Hmt & Hb & ->). exists mt. rewrite Hb.
    split; [by apply list_elem_of_singleton|done].
Qed.

Lemma elem_of_rule4 x i line :
  x ∈ rule4 i line <->
  (exists mt, mt ∈ finditer match_img line /\ blank (group1 mt) = true) /\
  x = {| line := i; type := warning; message := msg_img i |}.
Proof.
  unfold rule4. rewrite list_elem_of_bind. split.
  - intros (mt & Hx & Hmt).
    destruct (blank (group1 mt)) eqn:Hb; [|by apply elem_of_nil in Hx].
    apply list_elem_of_singleton in Hx. split; [by exists mt|done].
  - intros ((mt & Hmt & Hb) & ->). exists mt. rewrite Hb.
    split; [by apply list_elem_of_singleton|done].
Qed.

Lemma elem_of_rule5 x i line :
  x ∈ rule5 lines i line <->
  exists prev,
    line_before lines i = Some prev /\ contains PIPE line = true /\
    startswith (strip line) PIPE = false /\ contains PIPE prev = true /\
    x = {| line := i; type := warning; message := msg_table i |}.
Proof.
  unfold rule5. destruct (line_before lines i) as [prev|].
  - destruct (contains PIPE line) eqn:E1,
      (startswith (strip line) PIPE) eqn:E2,
      (contains PIPE prev) eqn:E3; simpl;
      rewrite ?list_elem_of_singleton, ?elem_of_nil; split;
      try (by intros (? & [= <-] & ? & ? & ? & ?); congruence);
      try done.
    intros ->. by exists prev.
  - rewrite elem_of_nil. split; [done|]. by intros (? & ? & _).
Qed.

Lemma elem_of_rule6 x i line :
  x ∈ rule6 lines (i, line) <->
  exists next,
    closing_fence lines i line = true /\ line_after lines i = Some next /\
    blank next = false /\
    x = {| line := i + 1; type := warning; message := msg_code i |}.
Proof.
  unfold rule6. cbn [fst snd].
  destruct (closing_fence lines i line).
  - destruct (line_after lines i) as [next|].
    + destruct (blank next) eqn:E; simpl;
        rewrite ?list_elem_of_singleton, ?elem_of_nil; split;
        try (by intros (? & ? & [= <-] & ? & ?); congruence); try done.
      intros ->. by exists next.
    + rewrite elem_of_nil. split; [done|]. by intros (? & ? & ? & _).
  - rewrite elem_of_nil. split; [done|]. by intros (? & ? & _).
Qed.

Lemma elem_of_rules_1_5_line x i line :
  x ∈ rules_1_5_line lines (i, line) <->
  x ∈ rule1 lines i line \/ x ∈ rule2 i line \/ x ∈ rule3 i line \/
  x ∈ rule4 i line \/ x ∈ rule5 lines i line.
Proof. unfold rules_1_5_line. by rewrite !elem_of_app. Qed.

Lemma elem_of_rules_1_5 x :
  x ∈ rules_1_5 lines <->
  exists i line,
    line_at lines i line /\ x ∈ rules_1_5_line lines (i, line).
Proof.
  unfold rules_1_5, line_at. rewrite list_elem_of_bind. split.
  - intros ([i line] & Hx & Hin%elem_of_enumerate). by exists i, line.
  - intros (i & line & Hin%elem_of_enumerate & Hx). by exists (i, line).
Qed.

Lemma elem_of_rule6_findings x :
  x ∈ rule6_findings lines <->
  exists i line, line_at lines i line /\ x ∈ rule6 lines (i, line).
Proof.
  unfold rule6_findings, line_at. rewrite list_elem_of_bind. split.
  - intros ([i line] & Hx & Hin%elem_of_enumerate). by exists i, line.
  - intros (i & line & Hin%elem_of_enumerate & Hx). by exists (i, line).
Qed.

Lemma line_at_bounds i line :
  line_at lines i line -> 1 <= i <= len lines.
Proof. intros [Hi Hx%lookup_len]. lia. Qed.

Lemma line_after_bounds i next : line_after lines i = Some next -> i < len lines.
Proof.
  unfold line_after. intros Hx.
  destruct (Z.le_gt_cases (len lines) i) as [Hge|]; [|done].
  by rewrite lookup_len_None in Hx.
Qed.
End findings.

(** ** Messages *)

Lemma lit_inj (s t : string) : lit s = lit t -> s = t.
Proof.
  unfold lit. intros H.
  rewrite <- (string_of_list_ascii_of_string s),
          <- (string_of_list_ascii_of_string t).
  f_equal. revert H.
  generalize (list_ascii_of_string s) (list_ascii_of_string t).
  induction l as [|a l IH]; intros [|b l'] [=]; [done|].
  f_equal; [|by apply IH].
  rewrite <- (ascii_N_embedding a), <- (ascii_N_embedding b). congruence.
Qed.

(** Two line numbers are written alike only when they are equal. *)
Lemma str_of_int_inj (i j : Z) : str_of_int i = str_of_int j -> i = j.
Proof. intros H%lit_inj. by apply (inj pretty). Qed.

Lemma msg_header_inj (i j : Z) : msg_header i = msg_header j -> i = j.
Proof. intros H%app_inv_head. by apply str_of_int_inj. Qed.

Lemma msg_code_inj (i j : Z) : msg_code i = msg_code j -> i = j.
Proof. intros H%app_inv_head. by apply str_of_int_inj. Qed.

(** The messages of different rules differ in their first character or,
    for the two messages of rules 1 and 6, in the character that follows
    their common words. *)
Lemma first_char_header i : first_char (msg_header i) = Some 67%N.
Proof. reflexivity. Qed.
Lemma first_char_code i : first_char (msg_code i) = Some 67%N.
Proof. reflexivity. Qed.
Lemma first_char_level l i : first_char (msg_level l i) = Some 73%N.
Proof. reflexivity. Qed.
Lemma first_char_link i m : first_char (msg_link i m) = Some 69%N.
Proof. reflexivity. Qed.
Lemma first_char_img i : first_char (msg_img i) = Some 73%N.
Proof. reflexivity. Qed.
Lemma first_char_table i : first_char (msg_table i) = Some 84%N.
Proof. reflexivity. Qed.
Lemma char_after_header i : char_after (msg_header i) = Some 104%N.
Proof. reflexivity. Qed.
Lemma char_after_code i : char_after (msg_code i) = Some 99%N.
Proof. reflexivity. Qed.

(** Refute an equation between the messages of two different rules. *)
Ltac msg_clash H :=
  first
    [ apply (f_equal first_char) in H;
      rewrite ?first_char_header, ?first_char_code, ?first_char_level,
        ?first_char_link, ?first_char_img, ?first_char_table in H;
      discriminate H
    | apply (f_equal char_after) in H;
      rewrite ?char_after_header, ?char_after_code in H;
      discriminate H ].

(** ** The report *)

(** Every issue of the report is a finding of one rule on one line. *)
Lemma elem_of_report (lines : list str) (x : issue) :
  x ∈ rules_1_5 lines ++ rule6_findings lines <->
  exists i line,
    line_at lines i line /\
    (x ∈ rule1 lines i line \/ x ∈ rule2 i line \/ x ∈ rule3 i line \/
     x ∈ rule4 i line \/ x ∈ rule5 lines i line \/
     x ∈ rule6 lines (i, line)).
Proof.
  rewrite elem_of_app, elem_of_rules_1_5, elem_of_rule6_findings.
  setoid_rewrite elem_of_rules_1_5_line. split.
  - intros [(i & line & Hat & H)|(i & line & Hat & H)];
      exists i, line; (split; [done|tauto]).
  - intros (i & line & Hat & H).
    destruct H as [H|[H|[H|[H|[H|H]]]]];
      [left|left|left|left|left|right]; exists i, line; (split; [done|tauto]).
Qed.

(** [_lint_markdown] stores the report under [editor_id] and touches no
    other entry of [lint_issues]; the rest of the state it changes is the
    status text. *)
Lemma _lint_markdown_store (editor_id text : str) (a : app) :
  exists issues st,
    lint text = Ok issues /\
    _lint_markdown editor_id text a =
    Ok {| lint_issues := <[editor_id := issues]> (lint_issues a);
          status := st |}.
Proof.
  unfold _lint_markdown. rewrite lint_findings. cbn [bind].
  set (issues := rules_1_5 _ ++ rule6_findings _).
  exists issues.
  destruct (truthy_list issues); [|by eexists].
  destruct (count_type error issues >? 0); by eexists.
Qed.

(** Issues are reported on lines of the document. *)
Lemma report_line_bounds (lines : list str) (x : issue) :
  x ∈ rules_1_5 lines ++ rule6_findings lines -> 1 <= line x <= len lines.
Proof.
  intros (i & ln & Hat & Hx)%elem_of_report.
  apply line_at_bounds in Hat as Hi.
  destruct Hx as [Hx|[Hx|[Hx|[Hx|[Hx|Hx]]]]].
  - apply elem_of_rule1 in Hx as (next & Hn%line_after_bounds & _ & _ & _ & ->).
    simpl. lia.
  - apply elem_of_rule2 in Hx as (_ & _ & _ & ->). simpl. lia.
  - apply elem_of_rule3 in Hx as (mt & _ & _ & ->). simpl. lia.
  - apply elem_of_rule4 in Hx as (_ & ->). simpl. lia.
  - apply elem_of_rule5 in Hx as (prev & _ & _ & _ & _ & ->). simpl. lia.
  - apply elem_of_rule6 in Hx as (next & _ & Hn%line_after_bounds & _ & ->).
    simpl. lia.
Qed.

Lemma filter_none {A} (P : A -> Prop) `{!forall x, Decision (P x)}
    (l : list A) :
  (forall x, x ∈ l -> ~ P x) -> filter P l = [].
Proof.
  induction l as [|x l IH]; intros Hl; [done|].
  rewrite filter_cons_False by (apply Hl; left).
  apply IH. intros y Hy. apply Hl. by right.
Qed.

(** Findings selected by [P] that only one line can contribute are those
    this line contributes. *)
Lemma filter_findings_at {B} (P : B -> Prop) `{!forall x, Decision (P x)}
    (f : Z * str -> list B) (lines : list str) (k : nat) (l : str) :
  lines !! k = Some l ->
  (forall i ln x, x ∈ f (i, ln) -> P x -> i = 1 + Z.of_nat k) ->
  filter P (enumerate 1 lines ≫= f) = filter P (f (1 + Z.of_nat k, l)).
Proof.
  intros Hk Hf.
  assert (Hlen : len (take k lines) = Z.of_nat k).
  { unfold len. rewrite length_take. apply lookup_lt_Some in Hk. lia. }
  rewrite <- (take_drop_middle lines k l Hk) at 1.
  rewrite enumerate_app, bind_app, filter_app. cbn [enumerate].
  rewrite bind_cons, filter_app, Hlen.
  rewrite (filter_none P (enumerate 1 (take k lines) ≫= f)).
  - rewrite (filter_none P (enumerate _ (drop (S k) lines) ≫= f)).
    + by rewrite app_nil_r.
    + intros x ([i ln] & Hx & [Hi _]%elem_of_enumerate)%list_elem_of_bind HP.
      specialize (Hf i ln x Hx HP). lia.
  - intros x ([i ln] & Hx & [Hi Hl]%elem_of_enumerate)%list_elem_of_bind HP.
    specialize (Hf i ln x Hx HP). apply lookup_len in Hl. lia.
Qed.

(** ** Rule 1: header followed by content *)

(** C3.  A line that begins with '#' and is not the last line, followed by
    a non-blank line that does not begin with '#', gets a warning located at
    the next line whose message names the header's own line.  The document
    "# Title" / "Some text" yields exactly this warning (at line 2, naming
    line 1), and "# Title" / "" / "Some text" yields no issue at all, so no
    header-spacing warning. *)
Theorem header_followed_by_content :
  (forall (text : str) (i : Z) (line next : str),
     line_at (split NL text) i line ->
     line_after (split NL text) i = Some next ->
     startswith line HASH = true ->
     blank next = false ->
     startswith next HASH = false ->
     exists issues,
       lint text = Ok issues /\
       {| line := i + 1; type := warning; message := msg_header i |}
         ∈ issues) /\
  lint (text_of ["# Title"; "Some text"]) =
    Ok [{| line := 2; type := warning;
           message :=
             lit "Consider adding blank line after header at line 1" |}] /\
  lint (text_of ["# Title"; ""; "Some text"]) = Ok [].
Proof.
  split; [|split; vm_compute; reflexivity].
  intros text i line next Hat Hnext Hhash Hblank Hnohash.
  eexists. split; [apply lint_findings|].
  apply elem_of_report. exists i, line. split; [done|]. left.
  apply elem_of_rule1. by exists next.
Qed.

Lemma header_followed_by_content_witness :
  exists issues,
    lint (text_of ["intro"; "## Usage"; "run it"]) = Ok issues /\
    {| line := 3; type := warning; message := msg_header 2 |} ∈ issues.
Proof.
  apply (proj1 header_followed_by_content
           (text_of ["intro"; "## Usage"; "run it"]) 2
           (lit "## Usage") (lit "run it")).
  - split; [lia|reflexivity].
  - reflexivity.
  - reflexivity.
  - reflexivity.
  - reflexivity.
Defined.

(** ** Rule 2: invalid heading depth *)

(** C4.  A line beginning with '#' at a position greater than 3 whose count
    of leading '#' exceeds 6 gets an error at that line, with the message
    "Invalid heading level L at line N (max is 6)"; no such error is ever
    reported at positions 1 to 3, whatever the depth; and in every document
    whose line 5 is "#######  Too deep" the errors at line 5 are exactly
    one, which names heading level 7. *)
Theorem invalid_heading_depth :
  (forall (text : str) (i : Z) (line : str),
     line_at (split NL text) i line ->
     3 < i ->
     startswith line HASH = true ->
     6 < depth line ->
     exists issues,
       lint text = Ok issues /\
       {| line := i; type := error; message := msg_level (depth line) i |}
         ∈ issues) /\
  (forall (text : str) (i level : Z),
     i <= 3 ->
     exists issues,
       lint text = Ok issues /\
       {| line := i; type := error; message := msg_level level i |}
         ∉ issues) /\
  (forall text : str,
     line_at (split NL text) 5 (lit "#######  Too deep") ->
     exists issues,
       lint text = Ok issues /\
       filter (fun x => type x = error /\ line x = 5) issues =
       [{| line := 5; type := error;
           message := lit "Invalid heading level 7 at line 5 (max is 6)" |}]).
Proof.
  split; [|split].
  - intros text i line Hat Hi Hhash Hdepth.
    eexists. split; [apply lint_findings|].
    apply elem_of_report. exists i, line. split; [done|]. right; left.
    by apply elem_of_rule2.
  - intros text i level Hi.
    eexists. split; [apply lint_findings|].
    intros (j & ln & Hat & Hx)%elem_of_report.
    destruct Hx as [Hx|[Hx|[Hx|[Hx|[Hx|Hx]]]]].
    + by apply elem_of_rule1 in Hx as (? & _ & _ & _ & _ & [=]).
    + apply elem_of_rule2 in Hx as (_ & Hj & _ & [= -> _]). lia.
    + by apply elem_of_rule3 in Hx as (mt & _ & _ & [=]).
    + by apply elem_of_rule4 in Hx as (_ & [=]).
    + by apply elem_of_rule5 in Hx as (? & _ & _ & _ & _ & [=]).
    + by apply elem_of_rule6 in Hx as (? & _ & _ & _ & [=]).
  - intros text [_ Hat]. set (lines := split NL text) in *.
    eexists. split; [apply lint_findings|]. fold lines.
    rewrite filter_app.
    rewrite (filter_none _ (rule6_findings lines)).
    2:{ intros x (i & ln & _ & Hx)%elem_of_rule6_findings [Ht _].
        apply elem_of_rule6 in Hx as (? & _ & _ & _ & ->). discriminate Ht. }
    rewrite app_nil_r. unfold rules_1_5.
    rewrite (filter_findings_at _ _ lines 4 _ Hat).
    2:{ intros i ln x Hx [Ht Hl].
        apply elem_of_rules_1_5_line in Hx as [Hx|[Hx|[Hx|[Hx|Hx]]]].
        - apply elem_of_rule1 in Hx as (? & _ & _ & _ & _ & ->).
          discriminate Ht.
        - apply elem_of_rule2 in Hx as (_ & _ & _ & ->). simpl in Hl. lia.
        - apply elem_of_rule3 in Hx as (? & _ & _ & ->). simpl in Hl. lia.
        - apply elem_of_rule4 in Hx as (_ & ->). discriminate Ht.
        - apply elem_of_rule5 in Hx as (? & _ & _ & _ & _ & ->).
          discriminate Ht. }
    unfold rules_1_5_line. cbn [fst snd]. rewrite !filter_app.
    rewrite (filter_none _ (rule1 _ _ _)).
    2:{ intros x (? & _ & _ & _ & _ & ->)%elem_of_rule1 [Ht _].
        discriminate Ht. }
    rewrite (filter_none _ (rule4 _ _)).
    2:{ intros x (_ & ->)%elem_of_rule4 [Ht _]. discriminate Ht. }
    rewrite (filter_none _ (rule5 _ _ _)).
    2:{ intros x (? & _ & _ & _ & _ & ->)%elem_of_rule5 [Ht _].
        discriminate Ht. }
    vm_compute. reflexivity.
Qed.

Lemma invalid_heading_depth_witness :
  (exists issues,
     lint (text_of ["a"; "b"; "c"; "########"]) = Ok issues /\
     {| line := 4; type := error; message := msg_level 8 4 |} ∈ issues) /\
  (exists issues,
     lint (text_of ["#######"]) = Ok issues /\
     {| line := 1; type := error; message := msg_level 7 1 |} ∉ issues) /\
  (exists issues,
     lint (text_of ["a"; "b"; "c"; "d"; "#######  Too deep"; "e"]) =
       Ok issues /\
     filter (fun x => type x = error /\ line x = 5) issues =
     [{| line := 5; type := error;
         message := lit "Invalid heading level 7 at line 5 (max is 6)" |}]).
Proof.
  destruct invalid_heading_depth as (H1 & H2 & H3).
  split; [|split].
  - apply (H1 (text_of ["a"; "b"; "c"; "########"]) 4 (lit "########")).
    + split; [lia|reflexivity].
    + lia.
    + reflexivity.
    + vm_compute. reflexivity.
  - apply (H2 (text_of ["#######"]) 1 7). lia.
  - apply (H3 (text_of ["a"; "b"; "c"; "d"; "#######  Too deep"; "e"])).
    split; [lia|reflexivity].
Defined.

(** ** Rule 6: code block followed by content *)

(** C5.  With the flag toggled by each line whose trimmed content starts
    with three backticks, a closing fence that is not the last line gets,
    when the next line is non-blank, a warning at the next line whose
    message names the fence's line, and no issue with that message when the
    next line is blank.  The document "```" / "code" / "```" / "more text"
    yields exactly one warning, at line 4 and naming line 3; with a blank
    line 4 it yields none. *)
Theorem code_block_followed_by_content :
  (forall (text : str) (i : Z) (line next : str),
     line_at (split NL text) i line ->
     closing_fence (split NL text) i line = true ->
     line_after (split NL text) i = Some next ->
     exists issues,
       lint text = Ok issues /\
       (blank next = false ->
        {| line := i + 1; type := warning; message := msg_code i |}
          ∈ issues) /\
       (blank next = true ->
        forall x, x ∈ issues -> message x <> msg_code i)) /\
  lint (text_of ["```"; "code"; "```"; "more text"]) =
    Ok [{| line := 4; type := warning;
           message :=
             lit "Consider adding blank line after code block at line 3" |}] /\
  lint (text_of ["```"; "code"; "```"; ""]) = Ok [].
Proof.
  split; [|split; vm_compute; reflexivity].
  intros text i line next Hat Hclose Hnext.
  eexists. split; [apply lint_findings|]. split.
  - intros Hblank. apply elem_of_report. exists i, line. split; [done|].
    do 5 right. apply elem_of_rule6. by exists next.
  - intros Hblank x (j & ln & _ & Hx)%elem_of_report Hm.
    destruct Hx as [Hx|[Hx|[Hx|[Hx|[Hx|Hx]]]]].
    + apply elem_of_rule1 in Hx as (? & _ & _ & _ & _ & ->).
      simpl in Hm. msg_clash Hm.
    + apply elem_of_rule2 in Hx as (_ & _ & _ & ->).
      simpl in Hm. msg_clash Hm.
    + apply elem_of_rule3 in Hx as (mt & _ & _ & ->).
      simpl in Hm. msg_clash Hm.
    + apply elem_of_rule4 in Hx as (_ & ->). simpl in Hm. msg_clash Hm.
    + apply elem_of_rule5 in Hx as (? & _ & _ & _ & _ & ->).
      simpl in Hm. msg_clash Hm.
    + apply elem_of_rule6 in Hx as (next' & _ & Hnext' & Hblank' & ->).
      simpl in Hm. apply msg_code_inj in Hm as ->. congruence.
Qed.

Lemma code_block_followed_by_content_witness :
  exists issues,
    lint (text_of ["x"; "  ```py"; "y = 1"; "```"; "z"; ""]) = Ok issues /\
    {| line := 5; type := warning; message := msg_code 4 |} ∈ issues.
Proof.
  destruct (proj1 code_block_followed_by_content
              (text_of ["x"; "  ```py"; "y = 1"; "```"; "z"; ""]) 4
              (lit "```") (lit "z")) as (issues & Hl & Hin & _).
  - split; [lia|reflexivity].
  - reflexivity.
  - reflexivity.
  - exists issues. split; [exact Hl|]. apply Hin. reflexivity.
Defined.

(** ** Line numbers *)

(** C8.  Every issue of the report of a document with n lines has a line
    number between 1 and n+1, and no issue names the final line as the
    header or the closing fence it follows: a rule that looks at the next
    line emits nothing when its trigger is the last line. *)
Theorem issue_lines_in_range (text : str) :
  exists issues,
    lint text = Ok issues /\
    (forall x, x ∈ issues -> 1 <= line x <= len (split NL text) + 1) /\
    (forall x, x ∈ issues ->
       message x <> msg_header (len (split NL text)) /\
       message x <> msg_code (len (split NL text))).
Proof.
  eexists. split; [apply lint_findings|]. split.
  - intros x Hx%report_line_bounds. lia.
  - intros x (j & ln & _ & Hx)%elem_of_report.
    destruct Hx as [Hx|[Hx|[Hx|[Hx|[Hx|Hx]]]]].
    + apply elem_of_rule1 in Hx as (? & Hn%line_after_bounds & _ & _ & _ & ->).
      simpl. split; intros Hm; [|msg_clash Hm].
      apply msg_header_inj in Hm. lia.
    + apply elem_of_rule2 in Hx as (_ & _ & _ & ->).
      simpl. split; intros Hm; msg_clash Hm.
    + apply elem_of_rule3 in Hx as (mt & _ & _ & ->).
      simpl. split; intros Hm; msg_clash Hm.
    + apply elem_of_rule4 in Hx as (_ & ->).
      simpl. split; intros Hm; msg_clash Hm.
    + apply elem_of_rule5 in Hx as (? & _ & _ & _ & _ & ->).
      simpl. split; intros Hm; msg_clash Hm.
    + apply elem_of_rule6 in Hx as (? & _ & Hn%line_after_bounds & _ & ->).
      simpl. split; intros Hm; [msg_clash Hm|].
      apply msg_code_inj in Hm. lia.
Qed.

Lemma issue_lines_in_range_witness :
  1 <= 4 <= len (split NL (text_of ["```"; "code"; "```"; "# End"])) + 1 /\
  msg_code 3 <> msg_header 4 /\ msg_code 3 <> msg_code 4.
Proof.
  destruct (issue_lines_in_range
              (text_of ["```"; "code"; "```"; "# End"]))
    as (issues & Hl & Hb & Hm).
  assert (lint (text_of ["```"; "code"; "```"; "# End"]) =
          Ok [{| line := 4; type := warning; message := msg_code 3 |}])
    as Hl' by (vm_compute; reflexivity).
  rewrite Hl' in Hl. injection Hl as <-.
  split.
  - apply (Hb {| line := 4; type := warning; message := msg_code 3 |}).
    by left.
  - apply (Hm {| line := 4; type := warning; message := msg_code 3 |}).
    by left.
Defined.

(** ** Order of the report *)

Lemma StronglySorted_all {A} (R : relation A) (l : list A) :
  (forall x y, x ∈ l -> y ∈ l -> R x y) -> StronglySorted R l.
Proof.
  induction l as [|x l IH]; intros H; constructor.
  - apply IH. intros y z Hy Hz. apply H; by right.
  - apply Forall_forall. intros y Hy. apply H; [by left|by right].
Qed.

(** The findings of a pass are sorted when those of each line are and
    those of a line come before those of the lines below. *)
Lemma pass_sorted (R : relation issue) (f : Z * str -> list issue) :
  (forall il, StronglySorted R (f il)) ->
  (forall i j ln ln' x y, i < j -> x ∈ f (i, ln) -> y ∈ f (j, ln') -> R x y) ->
  forall lines start, StronglySorted R (enumerate start lines ≫= f).
Proof.
  intros Hline Hcross.
  induction lines as [|ln lines IH]; intros start; [constructor|].
  cbn [enumerate]. rewrite bind_cons. apply StronglySorted_app_2; [|done..].
  intros x y Hx ([j ln'] & Hy & [Hj _]%elem_of_enumerate)%list_elem_of_bind.
  apply (Hcross start j ln ln'); [lia|done..].
Qed.

Lemma rules_1_5_line_lines (lines : list str) i ln x :
  x ∈ rules_1_5_line lines (i, ln) -> i <= line x <= i + 1.
Proof.
  intros [Hx|[Hx|[Hx|[Hx|Hx]]]]%elem_of_rules_1_5_line.
  - apply elem_of_rule1 in Hx as (? & _ & _ & _ & _ & ->). simpl. lia.
  - apply elem_of_rule2 in Hx as (_ & _ & _ & ->). simpl. lia.
  - apply elem_of_rule3 in Hx as (? & _ & _ & ->). simpl. lia.
  - apply elem_of_rule4 in Hx as (_ & ->). simpl. lia.
  - apply elem_of_rule5 in Hx as (? & _ & _ & _ & _ & ->). simpl. lia.
Qed.

Lemma rule6_lines (lines : list str) i ln x :
  x ∈ rule6 lines (i, ln) -> line x = i + 1.
Proof. by intros (? & _ & _ & _ & ->)%elem_of_rule6. Qed.

(** C2, as the specification states it, fails: in the report of
    "# [a]( )" / "x" the findings of rules 1 to 5 are the header warning of
    line 1, located at line 2, followed by the link error at line 1. *)
Lemma report_order_counterexample :
  lint (text_of ["# [a]( )"; "x"]) =
    Ok [{| line := 2; type := warning; message := msg_header 1 |};
        {| line := 1; type := error;
           message := msg_link 1 (lit "[a]( )") |}] /\
  rule6_findings (split NL (text_of ["# [a]( )"; "x"])) = [] /\
  ~ in_line_order (rules_1_5 (split NL (text_of ["# [a]( )"; "x"]))).
Proof.
  split; [vm_compute; reflexivity|]. split; [vm_compute; reflexivity|].
  intros Hs.
  assert (rules_1_5 (split NL (text_of ["# [a]( )"; "x"])) =
          [{| line := 2; type := warning; message := msg_header 1 |};
           {| line := 1; type := error;
              message := msg_link 1 (lit "[a]( )") |}]) as E
    by (vm_compute; reflexivity).
  rewrite E in Hs. apply StronglySorted_cons in Hs as [Hs _].
  apply Forall_cons in Hs as [Hs _]. simpl in Hs. lia.
Qed.

(** C2, amended.  The report is the findings of rules 1 to 5, collected in
    one pass over the lines with the rules in their fixed order on each
    line, followed by the findings of rule 6, collected in a second pass.
    The findings of rule 6 are in line order; those of rules 1 to 5 are in
    the order of the lines scanned, each located at the scanned line or the
    next one, so that a later finding is at most one line above an earlier
    one. *)
Theorem report_order (text : str) :
  lint text =
    Ok (rules_1_5 (split NL text) ++ rule6_findings (split NL text)) /\
  in_scan_order (rules_1_5 (split NL text)) /\
  in_line_order (rule6_findings (split NL text)).
Proof.
  split; [apply lint_findings|]. split.
  - apply pass_sorted.
    + intros [i ln]. apply StronglySorted_all.
      intros x y Hx%rules_1_5_line_lines Hy%rules_1_5_line_lines. lia.
    + intros i j ln ln' x y Hij Hx%rules_1_5_line_lines
        Hy%rules_1_5_line_lines. lia.
  - apply pass_sorted.
    + intros [i ln]. apply StronglySorted_all.
      intros x y Hx%rule6_lines Hy%rule6_lines. lia.
    + intros i j ln ln' x y Hij Hx%rule6_lines Hy%rule6_lines. lia.
Qed.

(** ** Totality and determinism *)

(** C6.  The linter is total: for every text the two loops run to their
    end without raising and the result is a list of issues; indexing the
    lines never leaves their bounds.  So it is for the empty text, for an
    unterminated code fence and for unbalanced markup, whose reports are
    empty. *)
Theorem lint_total :
  (forall text : str, exists issues, lint text = Ok issues) /\
  lint [] = Ok [] /\
  lint (text_of ["```"; "never closed"]) = Ok [] /\
  lint (text_of ["[a](b"; "![x]("; "**bold"]) = Ok [].
Proof.
  split; [|repeat split; vm_compute; reflexivity].
  intros text. eexists. apply lint_findings.
Qed.

(** C7.  The report depends on the text alone: two invocations on the same
    text, whatever the editor ids and whatever the application states they
    start from (the second may start from the state the first one left),
    store one and the same list of issues. *)
Theorem lint_deterministic (text d1 d2 : str) (a1 a2 : app) :
  exists issues a1' a2',
    _lint_markdown d1 text a1 = Ok a1' /\
    _lint_markdown d2 text a2 = Ok a2' /\
    lint_issues a1' !! d1 = Some issues /\
    lint_issues a2' !! d2 = Some issues.
Proof.
  destruct (_lint_markdown_store d1 text a1) as (r1 & st1 & Hr1 & ->).
  destruct (_lint_markdown_store d2 text a2) as (r2 & st2 & Hr2 & ->).
  assert (r2 = r1) as -> by congruence.
  eexists r1, _, _. repeat split; simpl; apply lookup_insert_eq.
Qed.

(** ** The store of reports *)

(** C9.  An invocation for the editor id [d] stores the freshly computed
    report of the text under [d], replacing what was stored there, and
    leaves the report stored under every other id as it was. *)
Theorem lint_replaces_report (d d' text : str) (a : app) :
  d' <> d ->
  exists issues a',
    lint text = Ok issues /\
    _lint_markdown d text a = Ok a' /\
    lint_issues a' !! d = Some issues /\
    lint_issues a' !! d' = lint_issues a !! d'.
Proof.
  intros Hne.
  destruct (_lint_markdown_store d text a) as (issues & st & Hr & ->).
  exists issues. eexists. repeat split; [done|..]; simpl.
  - apply lookup_insert_eq.
  - by apply lookup_insert_ne.
Qed.

Lemma lint_replaces_report_witness :
  lit "editor-2" <> lit "editor-1" /\
  exists issues a',
    lint (text_of ["# Title"; "Some text"]) = Ok issues /\
    _lint_markdown (lit "editor-1") (text_of ["# Title"; "Some text"])
      {| lint_issues := {[ lit "editor-2" := [] ]}; status := [] |} = Ok a' /\
    lint_issues a' !! lit "editor-1" = Some issues /\
    lint_issues a' !! lit "editor-2" =
      ({[ lit "editor-2" := [] ]} : gmap str (list issue)) !! lit "editor-2".
Proof.
  assert (lit "editor-2" <> lit "editor-1") as Hne
    by (vm_compute; discriminate).
  split; [exact Hne|].
  exact (lint_replaces_report (lit "editor-1") (lit "editor-2")
           (text_of ["# Title"; "Some text"])
           {| lint_issues := {[ lit "editor-2" := [] ]}; status := [] |} Hne).
Defined.

(** ** Code fences and rules 1 to 5 *)

(** C10.  Rules 1 to 5 do not look at the code-fence flag: in the document
    "```" / "# Title" / "text" / "```" the '#' line is inside the fence and
    still gets the header warning, at line 3 and naming line 2; in
    "```" / "a|b" / "c|d" / "```" line 3 is inside the fence and still gets
    the table-row warning. *)
Theorem rules_ignore_code_fences :
  inside_at (split NL (text_of ["```"; "# Title"; "text"; "```"])) 2 = true /\
  lint (text_of ["```"; "# Title"; "text"; "```"]) =
    Ok [{| line := 3; type := warning;
           message :=
             lit "Consider adding blank line after header at line 2" |}] /\
  inside_at (split NL (text_of ["```"; "a|b"; "c|d"; "```"])) 3 = true /\
  lint (text_of ["```"; "a|b"; "c|d"; "```"]) =
    Ok [{| line := 3; type := warning;
           message := lit "Table row at line 3 should start with |" |}].
Proof. repeat split; vm_compute; reflexivity. Qed.

(** ** Rule 3: empty link target *)

Section runs.
Context {A : Type} (p : A -> bool).

Lemma takewhile_dropwhile (l : list A) : takewhile p l ++ dropwhile p l = l.
Proof.
  induction l as [|x l IH]; simpl; [done|].
  destruct (p x); simpl; [by rewrite IH|done].
Qed.

Lemma takewhile_Forall (l : list A) : Forall (fun x => p x = true) (takewhile p l).
Proof.
  induction l as [|x l IH]; simpl; [constructor|].
  destruct (p x) eqn:E; by constructor.
Qed.

(** A run ends at the first element that fails the test, and nowhere
    else. *)
Lemma run_unique (g r : list A) x :
  Forall (fun y => p y = true) g -> p x = false ->
  takewhile p (g ++ x :: r) = g /\ dropwhile p (g ++ x :: r) = x :: r.
Proof.
  intros Hg Hx. induction Hg as [|y g Hy _ IH]; simpl.
  - by rewrite Hx.
  - rewrite Hy. destruct IH as [-> ->]. done.
Qed.
End runs.

Lemma not_char_true c x : not_char c x = true <-> x <> c.
Proof.
  unfold not_char, char_eqb. rewrite negb_true_iff. apply N.eqb_neq.
Qed.

Lemma char_eqb_eq a b : char_eqb a b = true <-> a = b.
Proof. apply N.eqb_eq. Qed.

(** What the tail of a pattern matches: the closing bracket, the opening
    parenthesis, a non-empty url free of closing parentheses, and the
    closing parenthesis.  The url is determined by the text. *)
Lemma match_tail_spec (before g1 s : str) (mt : Match) (rest : str) :
  match_tail before g1 s = Some (mt, rest) <->
  exists g2,
    g2 <> [] /\ Forall (fun c => c <> RPAREN) g2 /\
    s = [RBRACKET; LPAREN] ++ g2 ++ [RPAREN] ++ rest /\
    mt = {| group0 := before ++ g1 ++ [RBRACKET; LPAREN] ++ g2 ++ [RPAREN];
            group1 := g1; group2 := g2 |}.
Proof.
  unfold match_tail. split.
  - destruct s as [|c1 [|c2 s3]]; [done..|].
    destruct (char_eqb c1 RBRACKET) eqn:E1; [|done].
    destruct (char_eqb c2 LPAREN) eqn:E2; [|done]. simpl.
    apply char_eqb_eq in E1 as ->. apply char_eqb_eq in E2 as ->.
    pose proof (takewhile_dropwhile (not_char RPAREN) s3) as Hs.
    pose proof (takewhile_Forall (not_char RPAREN) s3) as Hg.
    destruct (takewhile (not_char RPAREN) s3) as [|c g2] eqn:Eg; [done|].
    destruct (dropwhile (not_char RPAREN) s3) as [|c3 r] eqn:Ed; [done|].
    destruct (char_eqb c3 RPAREN) eqn:E3; [|done].
    apply char_eqb_eq in E3 as ->. intros [= <- <-].
    exists (c :: g2). split; [done|]. split.
    + eapply Forall_impl; [exact Hg|]. intros x. apply not_char_true.
    + split; [|done]. by rewrite <- Hs.
  - intros (g2 & Hne & Hg & -> & ->). simpl.
    destruct (run_unique (not_char RPAREN) g2 rest RPAREN) as [-> ->].
    + eapply Forall_impl; [exact Hg|]. intros x. apply not_char_true.
    + reflexivity.
    + destruct g2; [done|]. reflexivity.
Qed.

(** What the link pattern matches at the start of a text. *)
Lemma match_link_spec (s : str) (mt : Match) (rest : str) :
  match_link s = Some (mt, rest) <->
  exists g1 g2,
    g1 <> [] /\ Forall (fun c => c <> RBRACKET) g1 /\
    g2 <> [] /\ Forall (fun c => c <> RPAREN) g2 /\
    s = [LBRACKET] ++ g1 ++ [RBRACKET; LPAREN] ++ g2 ++ [RPAREN] ++ rest /\
    mt = {| group0 := [LBRACKET] ++ g1 ++ [RBRACKET; LPAREN] ++ g2 ++ [RPAREN];
            group1 := g1; group2 := g2 |}.
Proof.
  unfold match_link. split.
  - destruct s as [|c0 s1]; [done|].
    destruct (char_eqb c0 LBRACKET) eqn:E0; [|done].
    apply char_eqb_eq in E0 as ->.
    pose proof (takewhile_dropwhile (not_char RBRACKET) s1) as Hs.
    pose proof (takewhile_Forall (not_char RBRACKET) s1) as Hg.
    destruct (takewhile (not_char RBRACKET) s1) as [|c g1] eqn:Eg; [done|].
    intros (g2 & Hne & Hg2 & Hd & ->)%match_tail_spec.
    exists (c :: g1), g2. repeat split; try done.
    + eapply Forall_impl; [exact Hg|]. intros x. apply not_char_true.
    + by rewrite <- Hs, Hd.
  - intros (g1 & g2 & Hne1 & Hg1 & Hne2 & Hg2 & -> & ->). simpl.
    destruct (run_unique (not_char RBRACKET) g1
                (LPAREN :: g2 ++ RPAREN :: rest) RBRACKET) as [-> ->].
    + eapply Forall_impl; [exact Hg1|]. intros x. apply not_char_true.
    + reflexivity.
    + destruct g1 as [|c g1]; [done|].
      apply match_tail_spec. by exists g2.
Qed.

(** Every match of [finditer] is a match of the pattern at some place. *)
Lemma elem_of_finditer_from m (skip : nat) (s : str) (mt : Match) :
  mt ∈ finditer_from m skip s -> exists s' rest, m s' = Some (mt, rest).
Proof.
  revert skip. induction s as [|c s IH]; intros skip; simpl.
  - by intros ?%elem_of_nil.
  - destruct skip as [|k]; [|apply IH].
    destruct (m (c :: s)) as [[mt' rest]|] eqn:E; [|apply IH].
    intros [->|Hin]%elem_of_cons; [by exists (c :: s), rest|].
    by eapply IH.
Qed.

(** The url of a link match is never empty: the pattern asks for at least
    one character between the parentheses. *)
Lemma link_url_nonempty (line : str) (mt : Match) :
  mt ∈ finditer match_link line -> group2 mt <> [].
Proof.
  intros (s' & rest & Hm)%elem_of_finditer_from.
  by apply match_link_spec in Hm as (g1 & g2 & _ & _ & Hne & _ & _ & ->).
Qed.

(** A link match whose url is white space only is reported. *)
Lemma blank_link_url_reported (text : str) (i : Z) (line : str) (mt : Match) :
  line_at (split NL text) i line ->
  mt ∈ finditer match_link line ->
  blank (group2 mt) = true ->
  exists issues,
    lint text = Ok issues /\
    {| line := i; type := error; message := msg_link i (group0 mt) |}
      ∈ issues.
Proof.
  intros Hat Hmt Hblank. eexists. split; [apply lint_findings|].
  apply elem_of_report. exists i, line. split; [done|].
  right; right; left. apply elem_of_rule3. by exists mt.
Qed.

(** C1.  The document "[broken]()" has no match of the link pattern, since
    the pattern requires a non-empty url, and its report is empty: the
    empty link target is not reported.  The same link with a url of one
    space is matched and reported. *)
Theorem empty_link_url_not_reported :
  finditer match_link (lit "[broken]()") = [] /\
  lint (text_of ["[broken]()"]) = Ok [] /\
  lint (text_of ["[broken]( )"]) =
    Ok [{| line := 1; type := error;
           message := lit "Empty link URL at line 1: [broken]( )" |}].
Proof. repeat split; vm_compute; reflexivity. Qed.

(** ** Each rule fires exactly when its condition holds *)

Lemma msg_level_inj (l l' i : Z) : msg_level l i = msg_level l' i -> l = l'.
Proof.
  unfold msg_level. intros H%app_inv_head%app_inv_tail.
  by apply str_of_int_inj.
Qed.

(** Split a membership in the report into the six rules, each with the
    facts its finding comes with. *)
Ltac report_inv H :=
  let j := fresh "j" in
  let ln := fresh "ln" in
  let Hat := fresh "Hat" in
  apply elem_of_report in H as (j & ln & Hat & [H|[H|[H|[H|[H|H]]]]]);
  [ apply elem_of_rule1 in H as (?next & ?Hnext & ?Hhash & ?Hblank & ?Hnh & H)
  | apply elem_of_rule2 in H as (?Hhash & ?Hpos & ?Hdepth & H)
  | apply elem_of_rule3 in H as (?mt & ?Hmt & ?Hblank & H)
  | apply elem_of_rule4 in H as ((?mt & ?Hmt & ?Hblank) & H)
  | apply elem_of_rule5 in H as (?prev & ?Hprev & ?Hpipe & ?Hstart & ?Hpp & H)
  | apply elem_of_rule6 in H as (?next & ?Hclose & ?Hnext & ?Hblank & H) ].

(** Refute an equation between the findings of two different rules, by the
    type or the message. *)
Ltac rule_clash H :=
  first
    [ discriminate H
    | let Hm := fresh "Hm" in
      apply (f_equal message) in H as Hm; cbn [message] in Hm; msg_clash Hm ].

(** X1.  The report holds the warning "Consider adding blank line after
    header at line i", located at line i+1, exactly when line i begins with
    '#', is not the last line, and the next line is non-blank and does not
    begin with '#'. *)
Theorem header_warning_exact (text : str) (i : Z) :
  exists issues,
    lint text = Ok issues /\
    ({| line := i + 1; type := warning; message := msg_header i |} ∈ issues <->
     exists line next,
       line_at (split NL text) i line /\
       line_after (split NL text) i = Some next /\
       startswith line HASH = true /\ blank next = false /\
       startswith next HASH = false).
Proof.
  eexists. split; [apply lint_findings|]. split.
  - intros H. report_inv H; try rule_clash H.
    pose proof (f_equal line H) as Hl. cbn [line] in Hl.
    assert (j = i) as -> by lia. by exists ln, next.
  - intros (ln & next & Hat & Hnext & Hhash & Hblank & Hnh).
    apply elem_of_report. exists i, ln. split; [done|]. left.
    apply elem_of_rule1. by exists next.
Qed.

(** X2.  The report holds the error "Invalid heading level L at line i
    (max is 6)" at line i exactly when line i is beyond the third line,
    begins with '#', and L is its count of leading '#', greater than 6. *)
Theorem level_error_exact (text : str) (i level : Z) :
  exists issues,
    lint text = Ok issues /\
    ({| line := i; type := error; message := msg_level level i |} ∈ issues <->
     exists line,
       line_at (split NL text) i line /\ startswith line HASH = true /\
       3 < i /\ 6 < level /\ level = depth line).
Proof.
  eexists. split; [apply lint_findings|]. split.
  - intros H. report_inv H; try rule_clash H.
    pose proof (f_equal line H) as Hl. pose proof (f_equal message H) as Hm.
    cbn [line message] in Hl, Hm. subst j.
    apply msg_level_inj in Hm as ->. by exists ln.
  - intros (ln & Hat & Hhash & Hpos & Hdepth & ->).
    apply elem_of_report. exists i, ln. split; [done|]. right; left.
    by apply elem_of_rule2.
Qed.

(** X3.  The report holds the warning "Image without alt text at line i
    (accessibility issue)" at line i exactly when line i has a match of the
    image pattern whose alt text is empty or white space. *)
Theorem image_warning_exact (text : str) (i : Z) :
  exists issues,
    lint text = Ok issues /\
    ({| line := i; type := warning; message := msg_img i |} ∈ issues <->
     exists line mt,
       line_at (split NL text) i line /\ mt ∈ finditer match_img line /\
       blank (group1 mt) = true).
Proof.
  eexists. split; [apply lint_findings|]. split.
  - intros H. report_inv H; try rule_clash H.
    pose proof (f_equal line H) as Hl. cbn [line] in Hl. subst j.
    by exists ln, mt.
  - intros (ln & mt & Hat & Hmt & Hblank).
    apply elem_of_report. exists i, ln. split; [done|]. do 3 right; left.
    apply elem_of_rule4. split; [by exists mt|done].
Qed.

(** X4.  The report holds the warning "Table row at line i should start
    with |" at line i exactly when line i contains '|', does not start with
    '|' once trimmed, and is not the first line, the line before it
    containing '|' too.  The first line never gets it. *)
Theorem table_warning_exact (text : str) (i : Z) :
  exists issues,
    lint text = Ok issues /\
    ({| line := i; type := warning; message := msg_table i |} ∈ issues <->
     exists line prev,
       line_at (split NL text) i line /\
       1 < i /\ line_at (split NL text) (i - 1) prev /\
       contains PIPE line = true /\ startswith (strip line) PIPE = false /\
       contains PIPE prev = true).
Proof.
  eexists. split; [apply lint_findings|]. split.
  - intros H. report_inv H; try rule_clash H.
    pose proof (f_equal line H) as Hl. cbn [line] in Hl. subst j.
    exists ln, prev. unfold line_before in Hprev.
    destruct (Z.leb_spec i 1); [done|].
    split; [done|]. split; [lia|]. split; [|done].
    split; [lia|]. by replace (i - 1 - 1) with (i - 2) by lia.
  - intros (ln & prev & Hat & Hi & [_ Hprev] & Hpipe & Hstart & Hpp).
    apply elem_of_report. exists i, ln. split; [done|]. do 4 right; left.
    apply elem_of_rule5. exists prev. split; [|done].
    unfold line_before. destruct (Z.leb_spec i 1); [lia|].
    by replace (i - 2) with (i - 1 - 1) by lia.
Qed.

(** X5.  The report holds the warning "Consider adding blank line after
    code block at line i", located at line i+1, exactly when line i is a
    closing fence, is not the last line, and the next line is non-blank. *)
Theorem code_block_warning_exact (text : str) (i : Z) :
  exists issues,
    lint text = Ok issues /\
    ({| line := i + 1; type := warning; message := msg_code i |} ∈ issues <->
     exists line next,
       line_at (split NL text) i line /\
       closing_fence (split NL text) i line = true /\
       line_after (split NL text) i = Some next /\ blank next = false).
Proof.
  eexists. split; [apply lint_findings|]. split.
  - intros H. report_inv H; try rule_clash H.
    pose proof (f_equal line H) as Hl. cbn [line] in Hl.
    assert (j = i) as -> by lia. by exists ln, next.
  - intros (ln & next & Hat & Hclose & Hnext & Hblank).
    apply elem_of_report. exists i, ln. split; [done|]. do 5 right.
    apply elem_of_rule6. by exists next.
Qed.

(** ** Text without markup *)

Lemma elem_of_split (sep : char) (s l : str) (c : char) :
  l ∈ split sep s -> c ∈ l -> c ∈ s.
Proof.
  revert l. induction s as [|a s IH]; intros l; simpl.
  - intros ->%list_elem_of_singleton Hc. by apply elem_of_nil in Hc.
  - destruct (char_eqb a sep).
    + intros [->|Hl]%elem_of_cons Hc; [by apply elem_of_nil in Hc|].
      right. by apply (IH l).
    + destruct (split sep s) as [|l0 ls]; [|].
      * intros ->%list_elem_of_singleton ->%list_elem_of_singleton. by left.
      * intros [->|Hl]%elem_of_cons Hc.
        -- apply elem_of_cons in Hc as [->|Hc]; [by left|].
           right. apply (IH l0); [by left|done].
        -- right. apply (IH l); [by right|done].
Qed.

Lemma startswith_head (s pre : str) (c : char) :
  startswith s (c :: pre) = true -> c ∈ s.
Proof.
  destruct s as [|a s]; simpl; [done|].
  intros [->%char_eqb_eq _]%andb_true_iff. by left.
Qed.

Lemma contains_elem (c : char) (s : str) : contains [c] s = true -> c ∈ s.
Proof.
  induction s as [|a s IH]; simpl; [done|].
  intros [H|H]%orb_true_iff.
  - apply andb_true_iff in H as [->%char_eqb_eq _]. by left.
  - right. by apply IH.
Qed.

Lemma elem_of_dropwhile {A} (p : A -> bool) (l : list A) (x : A) :
  x ∈ dropwhile p l -> x ∈ l.
Proof.
  induction l as [|y l IH]; simpl; [done|].
  destruct (p y); [|done]. intros H. right. by apply IH.
Qed.

Lemma elem_of_strip (s : str) (c : char) : c ∈ strip s -> c ∈ s.
Proof.
  unfold strip. rewrite !list_elem_of_In, <- in_rev, <- !list_elem_of_In.
  intros H%elem_of_dropwhile.
  apply list_elem_of_In, in_rev, list_elem_of_In in H.
  by apply elem_of_dropwhile in H.
Qed.

(** A match of [finditer] is found at the start of a suffix of the text. *)
Lemma elem_of_finditer_suffix m (skip : nat) (s : str) (mt : Match) :
  mt ∈ finditer_from m skip s ->
  exists s' rest, m s' = Some (mt, rest) /\ s' `suffix_of` s.
Proof.
  revert skip. induction s as [|c s IH]; intros skip; simpl.
  - by intros ?%elem_of_nil.
  - assert (forall k, mt ∈ finditer_from m k s ->
              exists s' rest, m s' = Some (mt, rest) /\ s' `suffix_of` c :: s)
      as IH'.
    { intros k (s' & rest & Hm & Hs)%IH. exists s', rest.
      split; [done|]. by apply suffix_cons_r. }
    destruct skip as [|k]; [|apply IH'].
    destruct (m (c :: s)) as [[mt' rest]|] eqn:E; [|apply IH'].
    intros [->|Hin]%elem_of_cons; [by exists (c :: s), rest|].
    by eapply IH'.
Qed.

Lemma elem_of_suffix {A} (l1 l2 : list A) (x : A) :
  l1 `suffix_of` l2 -> x ∈ l1 -> x ∈ l2.
Proof. intros [k ->] Hx. apply elem_of_app. by right. Qed.

Lemma link_match_bracket (line : str) (mt : Match) :
  mt ∈ finditer match_link line -> LBRACKET ∈ line.
Proof.
  intros (s' & rest & Hm & Hs)%elem_of_finditer_suffix.
  apply (elem_of_suffix s'); [done|].
  apply match_link_spec in Hm as (g1 & g2 & _ & _ & _ & _ & -> & _). by left.
Qed.

Lemma img_match_bracket (line : str) (mt : Match) :
  mt ∈ finditer match_img line -> LBRACKET ∈ line.
Proof.
  intros (s' & rest & Hm & Hs)%elem_of_finditer_suffix.
  apply (elem_of_suffix s'); [done|].
  unfold match_img in Hm. destruct s' as [|c0 [|c1 s1]]; [done..|].
  destruct (char_eqb c0 BANG); [|done].
  destruct (char_eqb c1 LBRACKET) eqn:E; [|done].
  apply char_eqb_eq in E as ->. right. by left.
Qed.

Lemma line_at_elem_of (lines : list str) (i : Z) (line : str) :
  line_at lines i line -> line ∈ lines.
Proof. intros [_ H]. by eapply list_elem_of_lookup_2. Qed.

(** X6.  A text with none of the characters '#', '[', '|' and '`' has an
    empty report: every rule needs one of them on the line it fires on. *)
Theorem plain_text_no_issues (text : str) :
  Forall (fun c => c <> 35 /\ c <> 91 /\ c <> 124 /\ c <> 96)%N text ->
  lint text = Ok [].
Proof.
  intros Hplain. rewrite lint_findings. f_equal. apply elem_of_nil_inv.
  intros x H.
  assert (forall c ln, line_at (split NL text) c.1 ln -> c.2 ∈ ln ->
            c.2 <> 35%N /\ c.2 <> 91%N /\ c.2 <> 124%N /\ c.2 <> 96%N) as Hno.
  { intros c ln Hat%line_at_elem_of Hc.
    rewrite Forall_forall in Hplain. apply Hplain.
    by eapply elem_of_split. }
  report_inv H.
  - apply startswith_head in Hhash.
    by destruct (Hno (j, 35%N) ln Hat Hhash) as (? & _).
  - apply startswith_head in Hhash.
    by destruct (Hno (j, 35%N) ln Hat Hhash) as (? & _).
  - apply link_match_bracket in Hmt.
    by destruct (Hno (j, LBRACKET) ln Hat Hmt) as (_ & ? & _).
  - apply img_match_bracket in Hmt.
    by destruct (Hno (j, LBRACKET) ln Hat Hmt) as (_ & ? & _).
  - apply contains_elem in Hpipe.
    by destruct (Hno (j, 124%N) ln Hat Hpipe) as (_ & _ & ? & _).
  - unfold closing_fence in Hclose.
    apply andb_true_iff in Hclose as [Hf%startswith_head%elem_of_strip _].
    by destruct (Hno (j, 96%N) ln Hat Hf) as (_ & _ & _ & ?).
Qed.

Lemma plain_text_no_issues_witness :
  lint (text_of ["Plain words."; ""; "  More (plain) words!"]) = Ok [].
Proof.
  apply plain_text_no_issues.
  apply (bool_decide_unpack _). vm_compute. reflexivity.
Defined.

(** ** Issues above an edit *)

Lemma filter_all {A} (P : A -> Prop) `{!forall x, Decision (P x)}
    (l : list A) :
  (forall x, x ∈ l -> P x) -> filter P l = l.
Proof.
  induction l as [|x l IH]; intros Hl; [done|].
  rewrite filter_cons_True by (apply Hl; left).
  f_equal. apply IH. intros y Hy. apply Hl. by right.
Qed.

Lemma filter_bind_ext {A B} (P : B -> Prop) `{!forall x, Decision (P x)}
    (f g : A -> list B) (l : list A) :
  (forall y, y ∈ l -> filter P (f y) = g y) ->
  filter P (l ≫= f) = l ≫= g.
Proof.
  induction l as [|y l IH]; intros Hl; [done|].
  rewrite !bind_cons, filter_app, Hl by left.
  f_equal. apply IH. intros z Hz. apply Hl. by right.
Qed.

Section prefix.
Variable lines : list str.
Variable k : nat.
Implicit Types (i : Z) (ln : str).

Lemma line_after_take i :
  1 <= i < Z.of_nat k -> line_after (take k lines) i = line_after lines i.
Proof. intros Hi. unfold line_after. apply lookup_take_lt. lia. Qed.

Lemma line_after_take_last i :
  Z.of_nat k <= i -> line_after (take k lines) i = None.
Proof. intros Hi. unfold line_after. apply lookup_take_ge. lia. Qed.

Lemma line_before_take i :
  i <= Z.of_nat k -> line_before (take k lines) i = line_before lines i.
Proof.
  intros Hi. unfold line_before. destruct (Z.leb_spec i 1); [done|].
  apply lookup_take_lt. lia.
Qed.

Lemma closing_fence_take i ln :
  i <= Z.of_nat k ->
  closing_fence (take k lines) i ln = closing_fence lines i ln.
Proof.
  intros Hi. unfold closing_fence, inside_at. rewrite take_take.
  by replace (Z.to_nat (i - 1) `min` k)%nat with (Z.to_nat (i - 1)) by lia.
Qed.

Lemma rule1_take i ln :
  1 <= i <= Z.of_nat k ->
  filter (fun x => line x <= Z.of_nat k) (rule1 lines i ln) =
  rule1 (take k lines) i ln.
Proof.
  intros Hi. destruct (decide (i < Z.of_nat k)) as [Hlt|Hge].
  - unfold rule1. rewrite line_after_take by lia.
    apply filter_all. intros x Hx.
    assert (x ∈ rule1 lines i ln) as H by done.
    apply elem_of_rule1 in H as (? & _ & _ & _ & _ & ->). simpl. lia.
  - unfold rule1 at 2. rewrite line_after_take_last by lia.
    apply filter_none.
    intros x (? & _ & _ & _ & _ & ->)%elem_of_rule1. simpl. lia.
Qed.

Lemma rule6_take i ln :
  1 <= i <= Z.of_nat k ->
  filter (fun x => line x <= Z.of_nat k) (rule6 lines (i, ln)) =
  rule6 (take k lines) (i, ln).
Proof.
  intros Hi. destruct (decide (i < Z.of_nat k)) as [Hlt|Hge].
  - unfold rule6. cbn [fst snd].
    rewrite closing_fence_take, line_after_take by lia.
    apply filter_all. intros x Hx.
    assert (x ∈ rule6 lines (i, ln)) as H by done.
    apply elem_of_rule6 in H as (? & _ & _ & _ & ->). simpl. lia.
  - unfold rule6 at 2. cbn [fst snd].
    rewrite line_after_take_last by lia.
    destruct (closing_fence (take k lines) i ln);
      apply filter_none;
      intros x (? & _ & _ & _ & ->)%elem_of_rule6; simpl; lia.
Qed.

Lemma rules_1_5_line_take i ln :
  1 <= i <= Z.of_nat k ->
  filter (fun x => line x <= Z.of_nat k) (rules_1_5_line lines (i, ln)) =
  rules_1_5_line (take k lines) (i, ln).
Proof.
  intros Hi. unfold rules_1_5_line. cbn [fst snd].
  rewrite !filter_app, rule1_take by done. f_equal.
  rewrite (filter_all _ (rule2 i ln)).
  2:{ intros x (_ & _ & _ & ->)%elem_of_rule2. simpl. lia. }
  f_equal. rewrite (filter_all _ (rule3 i ln)).
  2:{ intros x (? & _ & _ & ->)%elem_of_rule3. simpl. lia. }
  f_equal. rewrite (filter_all _ (rule4 i ln)).
  2:{ intros x (_ & ->)%elem_of_rule4. simpl. lia. }
  f_equal. unfold rule5 at 2. rewrite line_before_take by lia.
  apply filter_all.
  intros x (? & _ & _ & _ & _ & ->)%(elem_of_rule5 lines). simpl. lia.
Qed.

(** The findings of a pass located at the first [k] lines are the findings
    of the pass over these lines alone. *)
Lemma pass_take (f : list str -> Z * str -> list issue) :
  (forall i ln x, x ∈ f lines (i, ln) -> i <= line x) ->
  (forall i ln, 1 <= i <= Z.of_nat k ->
     filter (fun x => line x <= Z.of_nat k) (f lines (i, ln)) =
     f (take k lines) (i, ln)) ->
  filter (fun x => line x <= Z.of_nat k) (enumerate 1 lines ≫= f lines) =
  enumerate 1 (take k lines) ≫= f (take k lines).
Proof.
  intros Hlow Hline.
  assert (enumerate 1 lines =
          enumerate 1 (take k lines) ++
          enumerate (1 + len (take k lines)) (drop k lines)) as ->.
  { by rewrite <- enumerate_app, take_drop. }
  rewrite bind_app, filter_app.
  rewrite (filter_none _ (enumerate _ (drop k lines) ≫= f lines)).
  - rewrite app_nil_r. apply filter_bind_ext.
    intros [i ln] [Hi Hl]%elem_of_enumerate. apply Hline.
    apply lookup_lt_Some in Hl. rewrite length_take in Hl. lia.
  - intros x ([i ln] & Hx & [Hi Hl]%elem_of_enumerate)%list_elem_of_bind.
    apply Hlow in Hx. apply lookup_lt_Some in Hl.
    rewrite length_drop in Hl. unfold len in Hi.
    rewrite length_take in Hi. lia.
Qed.

Lemma report_take :
  filter (fun x => line x <= Z.of_nat k)
         (rules_1_5 lines ++ rule6_findings lines) =
  rules_1_5 (take k lines) ++ rule6_findings (take k lines).
Proof.
  rewrite filter_app. f_equal.
  - apply (pass_take rules_1_5_line).
    + intros i ln x Hx%rules_1_5_line_lines. lia.
    + apply rules_1_5_line_take.
  - apply (pass_take rule6).
    + intros i ln x Hx%rule6_lines. lia.
    + apply rule6_take.
Qed.
End prefix.

(** X7.  The issues located at the first k lines depend on these lines
    only: two texts with the same first k lines have the same issues, in
    the same order, at lines 1 to k, whatever follows. *)
Theorem report_prefix_stable (t1 t2 : str) (k : nat) :
  take k (split NL t1) = take k (split NL t2) ->
  exists r1 r2,
    lint t1 = Ok r1 /\ lint t2 = Ok r2 /\
    filter (fun x => line x <= Z.of_nat k) r1 =
    filter (fun x => line x <= Z.of_nat k) r2.
Proof.
  intros Hk. eexists _, _.
  split; [apply lint_findings|]. split; [apply lint_findings|].
  by rewrite !report_take, Hk.
Qed.

Lemma report_prefix_stable_witness :
  exists r1 r2,
    lint (text_of ["# A"; "b"; "# C"]) = Ok r1 /\
    lint (text_of ["# A"; "b"; "```"; "d|"; "e|"]) = Ok r2 /\
    filter (fun x => line x <= 2) r1 = filter (fun x => line x <= 2) r2.
Proof.
  apply (report_prefix_stable
           (text_of ["# A"; "b"; "# C"])
           (text_of ["# A"; "b"; "```"; "d|"; "e|"]) 2).
  reflexivity.
Defined.

(** ** The status bar and the store across runs *)

Lemma count_type_sum (issues : list issue) :
  count_type error issues + count_type warning issues = len issues.
Proof.
  unfold count_type, len.
  induction issues as [|x issues IH]; [done|].
  rewrite !filter_cons. destruct x as [l [] m]; simpl;
    repeat case_decide; try done; simpl; lia.
Qed.

(** The state a run leaves: the report stored, and the status text when
    the report has issues. *)
Lemma lint_status_text (d text : str) (a : app) :
  exists issues a',
    lint text = Ok issues /\ _lint_markdown d text a = Ok a' /\
    lint_issues a' !! d = Some issues /\
    (issues <> [] ->
     status a' =
       lit "Lint: " ++
       (if 0 <? count_type error issues
        then str_of_int (count_type error issues) ++ lit " error(s), "
        else []) ++
       str_of_int (count_type warning issues) ++
       lit " warning(s) | Press Ctrl+L for details").
Proof.
  unfold _lint_markdown. rewrite lint_findings. cbn [bind].
  set (issues := rules_1_5 _ ++ rule6_findings _).
  exists issues. rewrite Z.gtb_ltb.
  destruct issues as [|x issues'] eqn:E; cbn [truthy_list].
  - eexists. repeat split; [apply lookup_insert_eq|done].
  - destruct (0 <? count_type error (x :: issues')); eexists;
      (split; [done|]); (split; [done|]);
      (split; [apply lookup_insert_eq|]); intros _; cbn [status _set_status];
      by rewrite <- ?app_assoc.
Qed.

(** X8.  After a run that finds issues the status bar reads "Lint: ", the
    number of errors followed by " error(s), " when there is an error, the
    number of warnings and " warning(s) | Press Ctrl+L for details"; the two
    numbers add up to the number of issues stored. *)
Theorem lint_status_counts (d text : str) (a : app) :
  exists issues a',
    lint text = Ok issues /\ _lint_markdown d text a = Ok a' /\
    lint_issues a' !! d = Some issues /\
    count_type error issues + count_type warning issues = len issues /\
    (issues <> [] ->
     status a' =
       lit "Lint: " ++
       (if 0 <? count_type error issues
        then str_of_int (count_type error issues) ++ lit " error(s), "
        else []) ++
       str_of_int (count_type warning issues) ++
       lit " warning(s) | Press Ctrl+L for details").
Proof.
  destruct (lint_status_text d text a) as (issues & a' & Hl & Ha & Hg & Hs).
  exists issues, a'. repeat split; try done. apply count_type_sum.
Qed.



Lemma _lint_markdown_issues (d text : str) (a : app) (issues : list issue) :
  lint text = Ok issues ->
  exists st,
    _lint_markdown d text a =
    Ok {| lint_issues := <[d := issues]> (lint_issues a); status := st |}.
Proof.
  intros Hl. destruct (_lint_markdown_store d text a) as (r & st & Hr & ->).
  exists st. congruence.
Qed.

(** X10.  In the store the last run for an editor id wins: linting a text
    after any earlier run for the same id stores the same reports as
    linting that text alone. *)
Theorem lint_last_run_wins (d t1 t2 : str) (a : app) :
  exists a1 a2 a2',
    _lint_markdown d t1 a = Ok a1 /\ _lint_markdown d t2 a1 = Ok a2 /\
    _lint_markdown d t2 a = Ok a2' /\ lint_issues a2 = lint_issues a2'.
Proof.
  destruct (_lint_markdown_store d t1 a) as (r1 & s1 & L1 & H1).
  destruct (_lint_markdown_store d t2 a) as (r2 & s2 & L2 & H2).
  destruct (_lint_markdown_issues d t2
              (Build_app (<[d:=r1]> (lint_issues a)) s1) r2 L2) as (s3 & H3).
  eexists _, _, _. split; [exact H1|]. split; [exact H3|].
  split; [exact H2|]. cbn [lint_issues]. apply insert_insert_eq.
Qed.

(** X11.  Runs for two different editor ids can be swapped: the stored
    reports are the same in either order. *)
Theorem lint_runs_commute (d d' t1 t2 : str) (a : app) :
  d <> d' ->
  exists a1 a12 a2 a21,
    _lint_markdown d t1 a = Ok a1 /\ _lint_markdown d' t2 a1 = Ok a12 /\
    _lint_markdown d' t2 a = Ok a2 /\ _lint_markdown d t1 a2 = Ok a21 /\
    lint_issues a12 = lint_issues a21.
Proof.
  intros Hne.
  destruct (_lint_markdown_store d t1 a) as (r1 & s1 & L1 & H1).
  destruct (_lint_markdown_store d' t2 a) as (r2 & s2 & L2 & H2).
  destruct (_lint_markdown_issues d' t2
              (Build_app (<[d:=r1]> (lint_issues a)) s1) r2 L2) as (s3 & H3).
  destruct (_lint_markdown_issues d t1
              (Build_app (<[d':=r2]> (lint_issues a)) s2) r1 L1) as (s4 & H4).
  eexists _, _, _, _. split; [exact H1|]. split; [exact H3|].
  split; [exact H2|]. split; [exact H4|].
  cbn [lint_issues]. by apply insert_insert_ne.
Qed.

Lemma lint_runs_commute_witness :
  lit "editor_1" <> lit "editor_2" /\
  exists a1 a12 a2 a21,
    _lint_markdown (lit "editor_1") (lit "# a") (Build_app ∅ []) = Ok a1 /\
    _lint_markdown (lit "editor_2") (lit "b|") a1 = Ok a12 /\
    _lint_markdown (lit "editor_2") (lit "b|") (Build_app ∅ []) = Ok a2 /\
    _lint_markdown (lit "editor_1") (lit "# a") a2 = Ok a21 /\
    lint_issues a12 = lint_issues a21.
Proof.
  assert (lit "editor_1" <> lit "editor_2") as Hne
    by (vm_compute; discriminate).
  split; [exact Hne|].
  exact (lint_runs_commute (lit "editor_1") (lit "editor_2")
           (lit "# a") (lit "b|") (Build_app ∅ []) Hne).
Defined.

(** ** The image pattern *)

(** X12.  The image pattern matches at the start of a text exactly when
    the text begins with "![", an alt text free of ']' (possibly empty),
    "](", a non-empty source free of ')' and ")"; the alt text and the
    source are determined by the text, and the match is this piece of it. *)
Theorem match_img_exact (s : str) (mt : Match) (rest : str) :
  match_img s = Some (mt, rest) <->
  exists g1 g2,
    Forall (fun c => c <> RBRACKET) g1 /\
    g2 <> [] /\ Forall (fun c => c <> RPAREN) g2 /\
    s = [BANG; LBRACKET] ++ g1 ++ [RBRACKET; LPAREN] ++ g2 ++ [RPAREN] ++ rest /\
    mt = {| group0 := [BANG; LBRACKET] ++ g1 ++ [RBRACKET; LPAREN] ++ g2 ++
                      [RPAREN];
            group1 := g1; group2 := g2 |}.
Proof.
  unfold match_img. split.
  - destruct s as [|c0 [|c1 s1]]; [done..|].
    destruct (char_eqb c0 BANG) eqn:E0; [|done].
    destruct (char_eqb c1 LBRACKET) eqn:E1; [|done]. cbn [andb].
    apply char_eqb_eq in E0 as ->. apply char_eqb_eq in E1 as ->.
    pose proof (takewhile_dropwhile (not_char RBRACKET) s1) as Hs.
    pose proof (takewhile_Forall (not_char RBRACKET) s1) as Hg.
    intros (g2 & Hne & Hg2 & Hd & ->)%match_tail_spec.
    exists (takewhile (not_char RBRACKET) s1), g2. repeat split; try done.
    + eapply Forall_impl; [exact Hg|]. intros x. apply not_char_true.
    + by rewrite <- Hs, Hd at 1.
  - intros (g1 & g2 & Hg1 & Hne2 & Hg2 & -> & ->). simpl.
    destruct (run_unique (not_char RBRACKET) g1
                (LPAREN :: g2 ++ RPAREN :: rest) RBRACKET) as [-> ->].
    + eapply Forall_impl; [exact Hg1|]. intros x. apply not_char_true.
    + reflexivity.
    + apply match_tail_spec. by exists g2.
Qed.

(** ** The shell panel: the [cd] command *)

Lemma dropwhile_head {A} (p : A -> bool) (l : list A) x r :
  dropwhile p l = x :: r -> p x = false.
Proof.
  induction l as [|y l IH]; simpl; [done|].
  destruct (p y) eqn:E; [done|]. by intros [= <- _].
Qed.

Lemma dropwhile_nil {A} (p : A -> bool) (l : list A) :
  dropwhile p l = [] -> Forall (fun x => p x = true) l.
Proof.
  induction l as [|y l IH]; simpl; [constructor|].
  destruct (p y) eqn:E; [|done]. intros H. constructor; [done|by apply IH].
Qed.

(** A trimmed text does not end in white space. *)
Lemma strip_last (s l : str) (c : char) :
  strip s = l ++ [c] -> isspace c = false.
Proof.
  unfold strip. intros H.
  apply (f_equal (@rev _)) in H. rewrite rev_involutive, rev_unit in H.
  by apply dropwhile_head in H.
Qed.

(** Only white space trims to the empty text. *)
Lemma strip_nil_inv (s : str) :
  strip s = [] -> Forall (fun c => isspace c = true) s.
Proof.
  unfold strip. intros H.
  apply (f_equal (@rev _)) in H. rewrite rev_involutive in H. simpl in H.
  apply dropwhile_nil in H.
  rewrite <- (takewhile_dropwhile isspace s). apply Forall_app. split.
  - apply takewhile_Forall.
  - apply Forall_forall. intros x Hx. rewrite Forall_forall in H.
    apply H. by apply list_elem_of_In, in_rev, list_elem_of_In in Hx.
Qed.

Lemma startswith_app (s pre : str) :
  startswith s pre = true -> s = pre ++ drop (length pre) s.
Proof.
  revert s. induction pre as [|p pre IH]; intros s; [done|].
  destruct s as [|c s]; simpl; [done|].
  intros [->%char_eqb_eq H]%andb_true_iff. f_equal. by apply IH.
Qed.

(** X13.  When the trimmed command starts with "cd ", the target directory
    read from it is never empty: the branch of [_execute_shell_command] for
    a "cd" without argument cannot be taken (a bare "cd" does not start
    with "cd " once trimmed, and goes to the shell instead). *)
Theorem cd_target_nonempty (command : str) :
  startswith (strip command) (lit "cd ") = true ->
  truthy (strip (drop 3 (strip command))) = true.
Proof.
  intros Hcd. apply startswith_app in Hcd.
  change (length (lit "cd ")) with 3%nat in Hcd.
  destruct (drop 3 (strip command)) as [|c0 r0] eqn:Hr.
  - rewrite app_nil_r in Hcd.
    by apply (strip_last command (lit "cd") 32%N) in Hcd.
  - destruct (exists_last (l := c0 :: r0)) as (r' & c & Hlast); [done|].
    rewrite Hlast in Hcd.
    rewrite app_assoc in Hcd. apply strip_last in Hcd.
    destruct (strip (c0 :: r0)) eqn:Hs; [|done].
    apply strip_nil_inv in Hs. rewrite Hlast in Hs.
    apply Forall_app in Hs as [_ Hs]. apply Forall_cons in Hs as [Hs _].
    congruence.
Qed.

Lemma cd_target_nonempty_witness :
  truthy (strip (drop 3 (strip (lit "  cd  docs/  ")))) = true.
Proof.
  apply (cd_target_nonempty (lit "  cd  docs/  ")). reflexivity.
Defined.

Section shell.
Context `{Platform}.
Implicit Types (s : ide) (command m : str).

Lemma _append_command_output_paths m s :
  root_path (_append_command_output m s) = root_path s /\
  current_working_dir (_append_command_output m s) = current_working_dir s.
Proof. done. Qed.




(** A command that is blank, or that does not start with "cd " once
    trimmed, leaves the working directory where it is. *)
Lemma other_commands_keep_cwd command s :
  startswith (strip command) (lit "cd ") = false ->
  current_working_dir (_execute_shell_command command s)
  = current_working_dir s.
Proof.
  intros Hcd. unfold _execute_shell_command. rewrite Hcd.
  destruct (negb (truthy (strip command))); [done|].
  destruct (subprocess_run _ _) as [r| |e]; [|done..].
  by destruct (truthy (stdout r)), (truthy (stderr r)),
    (negb (returncode r =? 0)).
Qed.
End shell.


(** ** The command output *)

Section console.
Context `{Platform}.
Implicit Types (s : ide) (m t : str) (ms : list str).





End console.


(** ** Edits and the lint listing *)


Section events.
Context `{Platform}.
Implicit Types (s : ide) (e text : str).



(** X17.  An edit event is dropped, leaving the whole state as it is and
    linting nothing, when the text area has no id or its id is not a key of
    the editor files; and with no tab pane active a registered editor is
    marked modified but its stored report is left as it was. *)
Theorem edit_without_lint (d : option str) text (pane : bool) s :
  (forall e, d = Some e -> editor_files s !! e = None \/ pane = false) ->
  exists s',
    on_text_area_changed d text pane s = Ok s' /\
    lint_issues (core s') = lint_issues (core s) /\
    (forall e, d = Some e -> editor_files s !! e = None -> s' = s) /\
    (d = None -> s' = s).
Proof.
  intros Hd. unfold on_text_area_changed.
  destruct d as [e|]; [|by exists s].
  destruct (editor_files s !! e) as [p|] eqn:He.
  - rewrite bool_decide_eq_false_2
      by (intros Hn; apply Hn, elem_of_dom; by rewrite He).
    destruct (Hd e eq_refl) as [Hnone| ->]; [congruence|]. cbn [negb].
    eexists. split; [done|]. split; [done|]. split; [|done].
    intros e' [= <-] He'. congruence.
  - rewrite bool_decide_eq_true_2 by (by apply not_elem_of_dom).
    by exists s.
Qed.

End events.


Lemma edit_without_lint_witness :
  exists s',
    on_text_area_changed (Some (lit "editor_7")) (lit "# a") true demo_ide
      = Ok s' /\
    lint_issues (core s') = lint_issues (core demo_ide) /\
    (forall e, Some (lit "editor_7") = Some e ->
       editor_files demo_ide !! e = None -> s' = demo_ide) /\
    (Some (lit "editor_7") = None -> s' = demo_ide).
Proof.
  apply (edit_without_lint (H := demo_platform) (Some (lit "editor_7"))
           (lit "# a") true demo_ide).
  intros e [= <-]. left. vm_compute. reflexivity.
Defined.


(** ** Tab ids and titles *)

Lemma editor_id_inj (j k : Z) : editor_id j = editor_id k -> j = k.
Proof. intros E%app_inv_head. by apply str_of_int_inj. Qed.

Lemma elem_of_editor_ids (n : nat) (e : str) :
  e ∈ editor_ids n <->
  exists k : nat, (1 <= k <= n)%nat /\ e = editor_id (Z.of_nat k).
Proof.
  unfold editor_ids. rewrite elem_of_list_to_set, list_elem_of_fmap.
  setoid_rewrite elem_of_seq. split.
  - intros (k & -> & Hk). exists k. split; [lia|done].
  - intros (k & Hk & ->). exists k. split; [done|lia].
Qed.

Lemma size_editor_ids (n : nat) : size (editor_ids n) = n.
Proof.
  unfold editor_ids. rewrite size_list_to_set.
  - by rewrite length_fmap, length_seq.
  - apply NoDup_fmap_2_strong; [|apply NoDup_seq].
    intros j k _ _ E%editor_id_inj. lia.
Qed.

Section tabs.
Context `{Platform}.
Implicit Types (s : ide) (m : gmap str (option Path)).



(** X20.  Once a tab other than the last one has been closed, the id
    computed for the next tab is in use already: with "editor_1" to
    "editor_n" registered, after closing editor k < n the next id is
    "editor_n", the id of an editor that is still open.  Closing a tab
    also leaves its report in the store of lint issues. *)
Theorem editor_id_reused s (n k : nat) (active_after : option str) :
  dom (editor_files s) = editor_ids n ->
  (1 <= k < n)%nat ->
  let s' := close_current_tab (editor_id (Z.of_nat k)) active_after s in
  new_editor_id (editor_files s') = editor_id (Z.of_nat n) /\
  is_Some (editor_files s' !! editor_id (Z.of_nat n)) /\
  editor_files s' !! editor_id (Z.of_nat k) = None /\
  lint_issues (core s') = lint_issues (core s).
Proof.
  intros Hdom Hk. cbn zeta.
  assert (editor_files (close_current_tab (editor_id (Z.of_nat k))
                          active_after s)
          = delete (editor_id (Z.of_nat k)) (editor_files s)) as ->.
  { unfold close_current_tab. by destruct active_after. }
  assert (lint_issues (core (close_current_tab (editor_id (Z.of_nat k))
                               active_after s))
          = lint_issues (core s)) as ->.
  { unfold close_current_tab. by destruct active_after. }
  assert (editor_id (Z.of_nat k) ∈ dom (editor_files s)) as Hin.
  { rewrite Hdom. apply elem_of_editor_ids. exists k. split; [lia|done]. }
  split; [|split; [|split; [apply lookup_delete_eq|done]]].
  - unfold new_editor_id, editor_id. do 2 f_equal.
    apply elem_of_dom in Hin.
    rewrite (map_size_delete_Some _ _ Hin).
    rewrite <- size_dom, Hdom, size_editor_ids. lia.
  - rewrite lookup_delete_ne by (intros E%editor_id_inj; lia).
    apply elem_of_dom. rewrite Hdom. apply elem_of_editor_ids.
    exists n. split; [lia|done].
Qed.

(** X21.  The title of a new file does not count the editors that have no
    path yet: registering an unsaved editor leaves the title of the next
    new file as it was, so new files created one after the other are all
    titled "untitled.md" until one of them is saved. *)
Theorem new_file_title_ignores_unsaved m (e : str) :
  m !! e = None ->
  new_file_title (<[e := None]> m) = new_file_title m.
Proof.
  intros He. unfold new_file_title.
  replace (len (filter (fun kp => named_untitled kp.2 = true)
                       (map_to_list (<[e:=None]> m))))
    with (len (filter (fun kp => named_untitled kp.2 = true)
                      (map_to_list m))); [done|].
  unfold len. f_equal.
  rewrite (map_to_list_insert m e None He).
  by rewrite filter_cons_False.
Qed.
End tabs.


Lemma editor_id_reused_witness :
  let s :=
    with_editor_files
      {[ editor_id 1 := None; editor_id 2 := None; editor_id 3 := None ]}
      demo_ide in
  let s' := close_current_tab (editor_id 1) (Some (editor_id 3)) s in
  new_editor_id (editor_files s') = editor_id 3 /\
  is_Some (editor_files s' !! editor_id 3) /\
  editor_files s' !! editor_id 1 = None /\
  lint_issues (core s') = lint_issues (core s).
Proof.
  apply (editor_id_reused (H := demo_platform)
           (with_editor_files
              {[ editor_id 1 := None; editor_id 2 := None;
                 editor_id 3 := None ]} demo_ide)
           3 1 (Some (editor_id 3))).
  - vm_compute. reflexivity.
  - lia.
Defined.

Lemma new_file_title_ignores_unsaved_witness :
  new_file_title (H := demo_platform) (<[editor_id 1 := None]> ∅) =
  new_file_title (H := demo_platform) ∅.
Proof.
  apply (new_file_title_ignores_unsaved (H := demo_platform) ∅ (editor_id 1)).
  reflexivity.
Defined.
